(** * Starfield: a shallow embedding of [starfiel.py]

    The simulation is a single Python file.  Its floating-point numbers are
    modelled as exact rationals ([Q]), its integers as [Z], the calls to
    [random] as draws from an oracle indexed by a draw counter, and the
    drawing library as a list of issued draw commands. *)

From Stdlib Require Import ZArith QArith Qround List Bool String Lia Lqa.
Import ListNotations.
Open Scope Q_scope.

(** ** Config *)

Definition WIDTH : Q := 1000.
Definition HEIGHT : Q := 700.
Definition NUM_STARS : nat := 700.
Definition BASE_SPEED : Q := 0.8.
Definition BOOST_MULT : Q := 3.5.
Definition TRAIL_LENGTH : nat := 6.
Definition SHOOTING_STAR_PROB : Q := 0.002.
Definition FPS : Z := 60.

(** ** Python built-ins used by the program *)

Module Py.

(** [a < b] on floats. *)
Definition Qltb (a b : Q) : bool :=
  (Qnum a * QDen b <? Qnum b * QDen a)%Z.

(** [min(a, b)]: the first argument unless the second is strictly smaller. *)
Definition min (a b : Q) : Q := if Qltb b a then b else a.

(** [max(a, b)]: the first argument unless the second is strictly larger. *)
Definition max (a b : Q) : Q := if Qltb a b then b else a.

(** [int(x)] on a float: truncation toward zero. *)
Definition int (q : Q) : Z := Z.quot (Qnum q) (Zpos (Qden q)).

(** [a / b] on floats: [None] stands for [ZeroDivisionError]. *)
Definition div (a b : Q) : option Q :=
  if Qeq_bool b 0 then None else Some (a / b).

(** [l.pop()]: drops the last element. *)
Definition pop {A : Type} (l : list A) : list A := removelast l.

(** [l.remove(r)] on a list of references: drops the first occurrence. *)
Fixpoint remove (r : nat) (l : list nat) : list nat :=
  match l with
  | [] => []
  | r' :: rest => if Nat.eqb r r' then rest else r' :: remove r rest
  end.

End Py.

(** ** Helpers *)

Definition clamp (v a b : Q) : Q := Py.max a (Py.min b v).

Definition lerp (a b t : Q) : Q := a + (b - a) * t.

Definition RGB : Type := (Z * Z * Z)%type.

(** The three branches of [color_gradient], named after the source comments. *)
Definition blue_to_white (t : Q) : RGB :=
  let tt := t / 0.33 in
  (Py.int (lerp 80 255 tt), Py.int (lerp 120 255 tt), Py.int (lerp 200 255 tt)).

Definition white_to_yellow (t : Q) : RGB :=
  let tt := (t - 0.33) / 0.33 in
  (Py.int (lerp 255 255 tt), Py.int (lerp 255 220 tt), Py.int (lerp 255 80 tt)).

Definition yellow_to_red (t : Q) : RGB :=
  let tt := (t - 0.66) / 0.34 in
  (Py.int (lerp 255 255 tt), Py.int (lerp 220 100 tt), Py.int (lerp 80 40 tt)).

(** The two tests that open [color_gradient]. *)
Definition clamped (t : Q) : Q :=
  let t := if Py.Qltb t 0 then 0 else t in
  let t := if Py.Qltb 1 t then 1 else t in
  t.

Definition color_gradient (t : Q) : RGB :=
  let t := clamped t in
  if Py.Qltb t 0.33 then blue_to_white t
  else if Py.Qltb t 0.66 then white_to_yellow t
  else yellow_to_red t.

Definition red (c : RGB) : Z := fst (fst c).
Definition green (c : RGB) : Z := snd (fst c).
Definition blue (c : RGB) : Z := snd c.

(** ** color_gradient on every float

    A Python float is a number, an infinity or NaN.  Every comparison with
    NaN is false, arithmetic on NaN gives NaN, and [int] of NaN or of an
    infinity raises ([ValueError], [OverflowError]): [None] below. *)

Inductive Float : Type :=
| finite (q : Q)
| inf
| neg_inf
| nan.

(** [t < c] and [t > c] for a float [t] and a numeric constant [c]. *)
Definition float_lt (t : Float) (c : Q) : bool :=
  match t with
  | finite q => Py.Qltb q c
  | neg_inf => true
  | inf | nan => false
  end.

Definition float_gt (t : Float) (c : Q) : bool :=
  match t with
  | finite q => Py.Qltb c q
  | inf => true
  | neg_inf | nan => false
  end.

(** A branch of [color_gradient] at a float: the three [int(lerp(...))] of a
    number, an exception otherwise. *)
Definition branch_at (branch : Q -> RGB) (t : Float) : option RGB :=
  match t with
  | finite q => Some (branch q)
  | inf | neg_inf | nan => None
  end.

Definition color_gradient_float (t : Float) : option RGB :=
  let t := if float_lt t 0 then finite 0 else t in
  let t := if float_gt t 1 then finite 1 else t in
  if float_lt t 0.33 then branch_at blue_to_white t
  else if float_lt t 0.66 then branch_at white_to_yellow t
  else branch_at yellow_to_red t.


(** ** The [random] module

    The generator is an oracle: [unit_draw k] is what the [k]-th draw returns
    when it is a [random.random()], [below_draw k n] what it returns when it
    picks an integer below [n].  A computation threads the draw counter. *)

Module Random.

Record Source : Type := {
  unit_draw : nat -> Q;
  below_draw : nat -> Z -> Z
}.

Definition M (A : Type) : Type := nat -> A * nat.

Definition ret {A : Type} (a : A) : M A := fun k => (a, k).

Definition bind {A B : Type} (m : M A) (f : A -> M B) : M B :=
  fun k => let (a, k') := m k in f a k'.

Section Draws.
Variable src : Source.

Definition random : M Q := fun k => (unit_draw src k, S k).

(** [random.uniform(a, b)] is [a + (b - a) * random()]. *)
Definition uniform (a b : Q) : M Q :=
  bind random (fun r => ret (a + (b - a) * r)).

(** [random.randint(a, b)] is [a + randbelow(b - a + 1)]. *)
Definition randint (a b : Z) : M Z :=
  fun k => ((a + below_draw src k (b - a + 1))%Z, S k).

(** [random.choice(seq)] is [seq[randbelow(len(seq))]]. *)
Definition choice {A : Type} (default : A) (seq : list A) : M A :=
  fun k =>
    (nth (Z.to_nat (below_draw src k (Z.of_nat (List.length seq)))) seq default,
     S k).
End Draws.

(** What the generator guarantees: [random()] lies in [[0, 1)] and
    [randbelow(n)] in [[0, n)]. *)
Definition sound (src : Source) : Prop :=
  (forall k, 0 <= unit_draw src k /\ unit_draw src k < 1) /\
  (forall k n, (0 < n)%Z -> (0 <= below_draw src k n < n)%Z).

End Random.

Notation "x <- m ;; k" := (Random.bind m (fun x => k))
  (at level 61, m at next level, right associativity).

(** ** class Star *)

Definition Point3 : Type := (Q * Q * Q)%type.

Module Star.

Record t : Type := {
  w : Q;
  h : Q;
  x : Q;
  y : Q;
  z : Q;
  prev : list Point3;
  base_size : Q;
  brightness : Q;
  is_shooting : bool
}.

Definition set_xy (s : t) (x' y' : Q) : t :=
  {| w := w s; h := h s; x := x'; y := y'; z := z s; prev := prev s;
     base_size := base_size s; brightness := brightness s;
     is_shooting := is_shooting s |}.

Definition set_z (s : t) (z' : Q) : t :=
  {| w := w s; h := h s; x := x s; y := y s; z := z'; prev := prev s;
     base_size := base_size s; brightness := brightness s;
     is_shooting := is_shooting s |}.

Definition set_prev (s : t) (p : list Point3) : t :=
  {| w := w s; h := h s; x := x s; y := y s; z := z s; prev := p;
     base_size := base_size s; brightness := brightness s;
     is_shooting := is_shooting s |}.

Section Methods.
Variable src : Random.Source.
(** [math.cos] and [math.sin]. *)
Variables cos sin : Q -> Q.

Definition reset_fields (width height : Q) : Random.M t :=
  x' <- Random.uniform src (- width) width ;;
  y' <- Random.uniform src (- height) height ;;
  z' <- Random.uniform src 1 width ;;
  size <- Random.uniform src 0.8 3.2 ;;
  bright <- Random.uniform src 0.6 1.0 ;;
  Random.ret {| w := width; h := height; x := x'; y := y'; z := z';
                prev := []; base_size := size; brightness := bright;
                is_shooting := false |}.

Definition reset (s : t) : Random.M t := reset_fields (w s) (h s).

(** [Star(width, height)] *)
Definition init (width height : Q) : Random.M t := reset_fields width height.

(** The rotation and the inward scaling of [(x, y)]. *)
Definition swirl (s : t) (rotation spiral : Q) : t :=
  let s :=
    if negb (Qeq_bool rotation 0) then
      let cosr := cos rotation in
      let sinr := sin rotation in
      let xr := x s * cosr - y s * sinr in
      let yr := x s * sinr + y s * cosr in
      set_xy s xr yr
    else s in
  if negb (Qeq_bool spiral 0) then
    set_xy s (x s * (1 - spiral * 0.0006)) (y s * (1 - spiral * 0.0006))
  else s.

(** The approach of the viewer and the respawn at the near plane. *)
Definition approach (s : t) (speed : Q) : Random.M t :=
  let s := set_z s (z s - speed) in
  if Qle_bool (z s) 0.9 then
    s' <- reset s ;;
    z' <- Random.uniform src (w s' * 0.6) (w s') ;;
    Random.ret (set_z s' z')
  else Random.ret s.

(** The projection and the trail; [None] is a [ZeroDivisionError]. *)
Definition project (s : t) (offset_x offset_y : Q) : option (t * Point3) :=
  match Py.div (x s) (z s), Py.div (y s) (z s) with
  | Some qx, Some qy =>
      let sx := qx * (w s / 2) + w s / 2 + offset_x in
      let sy := qy * (h s / 2) + h s / 2 + offset_y in
      let p := (sx, sy, z s) :: prev s in
      let p := if (TRAIL_LENGTH <? List.length p)%nat then Py.pop p else p in
      Some (set_prev s p, (sx, sy, z s))
  | _, _ => None
  end.

Definition update (s : t) (speed offset_x offset_y rotation spiral : Q)
  : Random.M (option (t * Point3)) :=
  s <- approach (swirl s rotation spiral) speed ;;
  Random.ret (project s offset_x offset_y).
End Methods.

End Star.

(** ** class ShootingStar *)

Module ShootingStar.

Inductive Edge : Type := top | left | right.

Record t : Type := {
  w : Q;
  h : Q;
  x : Q;
  y : Q;
  vx : Q;
  vy : Q;
  life : Z;
  age : Z;
  length : Q;
  color : RGB
}.

Section Methods.
Variable src : Random.Source.

(** [ShootingStar(width, height)]; [fast_speed] is never read. *)
Definition init (width height : Q) : Random.M t :=
  edge <- Random.choice src top [top; left; right] ;;
  pos_vel <-
    match edge with
    | top =>
        x0 <- Random.uniform src (- width / 4) (width * 1.25) ;;
        vx0 <- Random.uniform src (-6) 6 ;;
        vy0 <- Random.uniform src 6 12 ;;
        Random.ret (x0, -20, vx0, vy0)
    | left =>
        y0 <- Random.uniform src (- height / 4) (height * 1.25) ;;
        vx0 <- Random.uniform src 6 12 ;;
        vy0 <- Random.uniform src (-3) 3 ;;
        Random.ret (-20, y0, vx0, vy0)
    | right =>
        y0 <- Random.uniform src (- height / 4) (height * 1.25) ;;
        vx0 <- Random.uniform src (-12) (-6) ;;
        vy0 <- Random.uniform src (-3) 3 ;;
        Random.ret (width + 20, y0, vx0, vy0)
    end ;;
  life0 <- Random.randint src 80 160 ;;
  length0 <- Random.uniform src 40 160 ;;
  let '(x0, y0, vx0, vy0) := pos_vel in
  Random.ret {| w := width; h := height; x := x0; y := y0;
                vx := vx0; vy := vy0; life := life0; age := 0;
                length := length0; color := (255, 220, 180)%Z |}.
End Methods.

(** Returns the moved star and whether it is still alive. *)
Definition update (s : t) : t * bool :=
  let s' := {| w := w s; h := h s; x := x s + vx s; y := y s + vy s;
               vx := vx s; vy := vy s; life := life s;
               age := (age s + 1)%Z; length := length s; color := color s |} in
  (s', (age s' <? life s')%Z).

End ShootingStar.

(** ** class AudioAnalyzer *)

Definition AUDIO_BLOCK : Z := 1024.
Definition AUDIO_SAMPLERATE : Z := 44100.

Module AudioAnalyzer.

Record t : Type := {
  block : Z;
  sr : Z;
  latest_level : Q;
  running : bool
}.

(** What [sd.InputStream(...)] followed by [stream.start()] does. *)
Inductive StreamOutcome : Type :=
| started
| raises (e : string).

(** The constructor catches the stream's exception itself: it returns the
    object in both cases, with what it printed. *)
Definition init (outcome : StreamOutcome) : t * list string :=
  let self := {| block := AUDIO_BLOCK; sr := AUDIO_SAMPLERATE;
                 latest_level := 0.0; running := false |} in
  match outcome with
  | started =>
      ({| block := block self; sr := sr self;
          latest_level := latest_level self; running := true |}, [])
  | raises e =>
      ({| block := block self; sr := sr self;
          latest_level := latest_level self; running := false |},
       [("Audio init failed: " ++ e)%string])
  end.

Section Callback.
(** [np.sqrt(np.mean(data*data))], and [np.mean(np.abs(np.fft.rfft(data)))]
    with [None] when the [try] block raises. *)
Variable np_rms : list Q -> Q.
Variable np_fft_mean : list Q -> option Q.

Definition _callback (self : t) (indata : list Q) : t :=
  let rms := np_rms indata in
  let level :=
    match np_fft_mean indata with
    | Some val => clamp (val * 10.0) 0.0 1.5
    | None => clamp (rms * 10.0) 0.0 1.5
    end in
  {| block := block self; sr := sr self; latest_level := level;
     running := running self |}.

(** The blocks the audio thread delivers, oldest first. *)
Definition callbacks (self : t) (blocks : list (list Q)) : t :=
  fold_left _callback blocks self.
End Callback.

Definition get_level (self : t) : Q := latest_level self.

End AudioAnalyzer.

(** ** The drawing library: the calls that were issued *)

Module Draw.

Inductive Surface : Type := trail_surf | screen.

Inductive Cmd : Type :=
| circle (surf : Surface) (color : list Z) (center : Q * Q) (radius : Z)
| line (surf : Surface) (color : list Z) (start_pos end_pos : Q * Q) (width : Z).

(** The coordinate pairs a call receives. *)
Definition coords (c : Cmd) : list (Q * Q) :=
  match c with
  | circle _ _ center _ => [center]
  | line _ _ start_pos end_pos _ => [start_pos; end_pos]
  end.

End Draw.

(** ** main *)

Module Main.

Definition RGBA : Type := (Z * Z * Z * Z)%type.

(** [surface.fill(color)] without blend flags. *)
Definition fill (color : RGBA) (surf : list RGBA) : list RGBA :=
  map (fun _ => color) surf.

Inductive Key : Type :=
| K_ESCAPE | K_q | K_s | K_t | K_c | K_a | K_other.

Inductive Event : Type :=
| QUIT
| KEYDOWN (key : Key)
| other_event.

(** The locals of [main] that event handling reads or writes. *)
Record Modes : Type := {
  running : bool;
  spiral_enabled : bool;
  trails_enabled : bool;
  color_mode : bool;
  audio_enabled : bool;
  audio_analyzer : option AudioAnalyzer.t;
  trail_pixels : list RGBA;
  stdout : list string
}.

(** What [AudioAnalyzer()] does when [main] calls it: an exception that
    leaves the constructor, or the constructor's own result. *)
Inductive Construction : Type :=
| escapes
| returns (outcome : AudioAnalyzer.StreamOutcome).

(** The state set up before the loop (lines 221-242). *)
Definition setup (AUDIO_AVAILABLE : bool) (c : Construction)
                 (pixels : list RGBA) : Modes :=
  let audio_enabled0 := false && AUDIO_AVAILABLE in
  let '(analyzer, out) :=
    if AUDIO_AVAILABLE then
      match c with
      | returns outcome =>
          let (a, printed) := AudioAnalyzer.init outcome in (Some a, printed)
      | escapes => (None, [])
      end
    else (None, []) in
  let audio_enabled1 :=
    match analyzer with Some _ => true | None => audio_enabled0 end in
  {| running := true; spiral_enabled := false; trails_enabled := true;
     color_mode := true; audio_enabled := audio_enabled1;
     audio_analyzer := analyzer; trail_pixels := pixels; stdout := out |}.

Definition print (line : string) (m : Modes) : Modes :=
  {| running := running m; spiral_enabled := spiral_enabled m;
     trails_enabled := trails_enabled m; color_mode := color_mode m;
     audio_enabled := audio_enabled m; audio_analyzer := audio_analyzer m;
     trail_pixels := trail_pixels m; stdout := stdout m ++ [line] |}.

(** One pass of the body of [for event in pygame.event.get()]. *)
Definition handle_event (AUDIO_AVAILABLE : bool) (event : Event) (m : Modes)
  : Modes :=
  let quit :=
    {| running := false; spiral_enabled := spiral_enabled m;
       trails_enabled := trails_enabled m; color_mode := color_mode m;
       audio_enabled := audio_enabled m; audio_analyzer := audio_analyzer m;
       trail_pixels := trail_pixels m; stdout := stdout m |} in
  match event with
  | QUIT => quit
  | KEYDOWN K_ESCAPE | KEYDOWN K_q => quit
  | KEYDOWN K_s =>
      {| running := running m; spiral_enabled := negb (spiral_enabled m);
         trails_enabled := trails_enabled m; color_mode := color_mode m;
         audio_enabled := audio_enabled m; audio_analyzer := audio_analyzer m;
         trail_pixels := trail_pixels m; stdout := stdout m |}
  | KEYDOWN K_t =>
      let trails := negb (trails_enabled m) in
      {| running := running m; spiral_enabled := spiral_enabled m;
         trails_enabled := trails; color_mode := color_mode m;
         audio_enabled := audio_enabled m; audio_analyzer := audio_analyzer m;
         trail_pixels :=
           if negb trails then fill (0, 0, 0, 0)%Z (trail_pixels m)
           else trail_pixels m;
         stdout := stdout m |}
  | KEYDOWN K_c =>
      {| running := running m; spiral_enabled := spiral_enabled m;
         trails_enabled := trails_enabled m; color_mode := negb (color_mode m);
         audio_enabled := audio_enabled m; audio_analyzer := audio_analyzer m;
         trail_pixels := trail_pixels m; stdout := stdout m |}
  | KEYDOWN K_a =>
      match AUDIO_AVAILABLE, audio_analyzer m with
      | true, Some _ =>
          let enabled := negb (audio_enabled m) in
          print (if enabled then "Audio sync: True" else "Audio sync: False")
            {| running := running m; spiral_enabled := spiral_enabled m;
               trails_enabled := trails_enabled m; color_mode := color_mode m;
               audio_enabled := enabled; audio_analyzer := audio_analyzer m;
               trail_pixels := trail_pixels m; stdout := stdout m |}
      | _, _ =>
          print "Audio not available (requires sounddevice + numpy)." m
      end
  | KEYDOWN K_other => m
  | other_event => m
  end.

(** The steering update of one axis (lines 276-277); [plus] and [minus] are
    the two key states, 0 or 1. *)
Definition steer (plus minus : Z) (dt steer_old : Q) : Q :=
  inject_Z (plus - minus) * 250.0 * dt + steer_old * (1 - 8 * dt).

(** The audio influence (lines 291-297): the level and the new multiplier. *)
Definition audio_influence (m : Modes) (speed_mult : Q) : Q * Q :=
  match audio_enabled m, audio_analyzer m with
  | true, Some a =>
      let audio_level := AudioAnalyzer.get_level a in
      let audio_level := clamp audio_level 0.0 1.5 in
      (audio_level, speed_mult * (1.0 + audio_level * 0.9))
  | _, _ => (0.0, speed_mult)
  end.

(** The values the drawing part of a frame reads. *)
Record View : Type := {
  steer_x : Q;
  steer_y : Q;
  rotation : Q;
  spiral : Q;
  speed_base : Q;
  speed_mult : Q;
  audio_level : Q;
  trails : bool;
  colors : bool;
  audio : bool
}.

Definition on_screen (sx sy : Q) : bool :=
  Qle_bool 0 sx && Py.Qltb sx WIDTH && Qle_bool 0 sy && Py.Qltb sy HEIGHT.

Definition rgb (c : RGB) : list Z := [red c; green c; blue c].

(** The draw calls for one updated star (lines 320-345). *)
Definition star_draws (v : View) (star : Star.t) (p : Point3) : list Draw.Cmd :=
  let '(sx, sy, sz) := p in
  if on_screen sx sy then
    let depth_norm := clamp (1.0 - sz / WIDTH) 0.0 1.0 in
    let col :=
      if colors v then rgb (color_gradient (depth_norm * Star.brightness star))
      else
        let val := Py.int (lerp 60 255 (depth_norm * Star.brightness star)) in
        [val; val; val] in
    let size :=
      Z.max 1 (Py.int (Star.base_size star * (1.0 + depth_norm * 3.5))) in
    let here := (inject_Z (Py.int sx), inject_Z (Py.int sy)) in
    if trails v then
      Draw.circle Draw.trail_surf (col ++ [200%Z]) here size ::
      (let prevs := Star.prev star in
       if (1 <? List.length prevs)%nat then
         let alpha_step :=
           Py.int (180 / inject_Z (Z.max 1 (Z.of_nat (List.length prevs)))) in
         map (fun i =>
                let '(px, py, pz) := nth i prevs (0, 0, 0) in
                let fade := Z.max 10 (200 - Z.of_nat i * alpha_step) in
                Draw.line Draw.trail_surf (col ++ [fade])
                  (inject_Z (Py.int px), inject_Z (Py.int py)) here
                  (Z.max 1 (size - Z.of_nat i / 2)))
             (seq 1 (List.length prevs - 1))
       else [])
    else [Draw.circle Draw.screen col here size]
  else [].

(** The shooting stars are objects: the list [shooting] holds references
    into a heap, and so does the copy [shooting[:]] the loop iterates. *)
Record Sky : Type := {
  heap : nat -> option ShootingStar.t;
  shooting : list nat;
  next_ref : nat
}.

Definition store (r : nat) (s : ShootingStar.t)
                 (hp : nat -> option ShootingStar.t) : nat -> option ShootingStar.t :=
  fun r' => if Nat.eqb r r' then Some s else hp r'.

(** [shooting.append(s)] for a newly built object [s]. *)
Definition append_new (s : ShootingStar.t) (sky : Sky) : Sky :=
  {| heap := store (next_ref sky) s (heap sky);
     shooting := shooting sky ++ [next_ref sky];
     next_ref := S (next_ref sky) |}.

(** The draw calls for a shooting star that is still alive (lines 357-362). *)
Definition streak_draws (s : ShootingStar.t) : list Draw.Cmd :=
  let end_x := ShootingStar.x s - ShootingStar.vx s * 3 in
  let end_y := ShootingStar.y s - ShootingStar.vy s * 3 in
  [Draw.line Draw.screen (rgb (ShootingStar.color s))
     (ShootingStar.x s, ShootingStar.y s) (end_x, end_y) 2;
   Draw.circle Draw.screen [255; 255; 255]%Z
     (inject_Z (Py.int (ShootingStar.x s)), inject_Z (Py.int (ShootingStar.y s))) 3].

(** [for s in shooting[:]] (lines 352-362); [snapshot] is what is left of
    the copy.  A reference without an object does not occur; it is skipped. *)
Fixpoint shooting_loop (snapshot : list nat) (sky : Sky) : Sky * list Draw.Cmd :=
  match snapshot with
  | [] => (sky, [])
  | r :: rest =>
      match heap sky r with
      | None => shooting_loop rest sky
      | Some s =>
          let (s', alive) := ShootingStar.update s in
          let hp := store r s' (heap sky) in
          if negb alive then
            shooting_loop rest
              {| heap := hp; shooting := Py.remove r (shooting sky);
                 next_ref := next_ref sky |}
          else
            let (sky', cmds) :=
              shooting_loop rest
                {| heap := hp; shooting := shooting sky;
                   next_ref := next_ref sky |} in
            (sky', streak_draws s' ++ cmds)
      end
  end.

Section Loop.
Variable src : Random.Source.
Variables cos sin : Q -> Q.

(** The body of [for star in stars] (lines 311-345). *)
Definition star_step (v : View) (star : Star.t)
  : Random.M (option (Star.t * list Draw.Cmd)) :=
  let s := (WIDTH - Star.z star) / WIDTH in
  let speed := (speed_base v * (1.0 + s * 4.0)) * speed_mult v in
  speed <-
    (if audio v then
       r <- Random.uniform src 0.8 1.2 ;;
       Random.ret (speed * (1.0 + audio_level v * 0.8 * r))
     else Random.ret speed) ;;
  res <- Star.update src cos sin star speed (steer_x v) (steer_y v)
           (rotation v * 0.4) (spiral v * 0.6) ;;
  Random.ret
    match res with
    | Some (star', p) => Some (star', star_draws v star' p)
    | None => None
    end.

Fixpoint stars_loop (v : View) (stars : list Star.t)
  : Random.M (option (list Star.t * list Draw.Cmd)) :=
  match stars with
  | [] => Random.ret (Some ([], []))
  | star :: rest =>
      r <- star_step v star ;;
      match r with
      | None => Random.ret None
      | Some (star', cmds) =>
          rs <- stars_loop v rest ;;
          Random.ret
            match rs with
            | Some (rest', cmds') => Some (star' :: rest', cmds ++ cmds')
            | None => None
            end
      end
  end.

(** The occasional spawn (lines 348-349). *)
Definition spawn (sky : Sky) : Random.M Sky :=
  r <- Random.random src ;;
  if Py.Qltb r SHOOTING_STAR_PROB then
    s <- ShootingStar.init src WIDTH HEIGHT ;;
    Random.ret (append_new s sky)
  else Random.ret sky.

(** The shooting stars of one frame (lines 347-362). *)
Definition shooting_frame (sky : Sky) : Random.M (Sky * list Draw.Cmd) :=
  sky <- spawn sky ;;
  Random.ret (shooting_loop (shooting sky) sky).

(** The stars and shooting stars of one frame (lines 309-362), with
    every circle and line that was drawn. *)
Definition render (v : View) (stars : list Star.t) (sky : Sky)
  : Random.M (option (list Star.t * Sky * list Draw.Cmd)) :=
  r <- stars_loop v stars ;;
  match r with
  | None => Random.ret None
  | Some (stars', cmds) =>
      sc <- shooting_frame sky ;;
      let (sky', cmds') := sc in
      Random.ret (Some (stars', sky', cmds ++ cmds'))
  end.

(** [n] frames of shooting stars, from draw counter [k]. *)
Fixpoint shooting_frames (n : nat) (sky : Sky) (k : nat) : Sky * nat :=
  match n with
  | O => (sky, k)
  | S n' =>
      let '(sky', _, k') := shooting_frame sky k in
      shooting_frames n' sky' k'
  end.
End Loop.

(** Every coordinate pair of every call lies in [[0, WIDTH) x [0, HEIGHT)]. *)
Definition in_bounds (p : Q * Q) : Prop :=
  0 <= fst p /\ fst p < WIDTH /\ 0 <= snd p /\ snd p < HEIGHT.

Definition all_in_bounds (cmds : list Draw.Cmd) : Prop :=
  forall c p, In c cmds -> In p (Draw.coords c) -> in_bounds p.

End Main.

(** ** main: the rest of the loop body *)

Module Loop.

(** [for event in pygame.event.get()]: every event of the queue is handled,
    also those that follow a quit. *)
Definition handle_events (AUDIO_AVAILABLE : bool) (events : list Main.Event)
                         (m : Main.Modes) : Main.Modes :=
  fold_left (fun m event => Main.handle_event AUDIO_AVAILABLE event m) events m.

(** What [pygame.key.get_pressed()] says of the keys the loop reads. *)
Record Keys : Type := {
  K_RIGHT : bool;
  K_LEFT : bool;
  K_DOWN : bool;
  K_UP : bool;
  K_SPACE : bool
}.

(** A key state as the integer it is in arithmetic. *)
Definition pressed (b : bool) : Z := if b then 1%Z else 0%Z.

(** The floats the loop carries from frame to frame. *)
Record Motion : Type := {
  steer_x : Q;
  steer_y : Q;
  rotation : Q;
  spiral : Q
}.

(** The steering update of the vertical axis (line 277). *)
Definition steer_vertical (plus minus : Z) (dt steer_old : Q) : Q :=
  inject_Z (plus - minus) * 150.0 * dt + steer_old * (1 - 8 * dt).

(** The speed multiplier of the space bar (lines 279-280). *)
Definition boost (boosting : bool) : Q := if boosting then BOOST_MULT else 1.0.

(** The rotational sway (lines 283-288): the new rotation and spiral. *)
Definition sway (spiral_enabled : bool) (dt rotation spiral : Q) : Q * Q :=
  if spiral_enabled then (rotation + 0.8 * dt, 0.5)
  else (rotation * 0.98, spiral * 0.96).

(** Lines 247 and 274-297: [ticks] is what [clock.tick(FPS)] returned. *)
Definition controls (m : Main.Modes) (keys : Keys) (ticks : Z) (mo : Motion)
  : Motion * Main.View :=
  let dt := inject_Z ticks / 1000.0 in
  let sx := Main.steer (pressed (K_RIGHT keys)) (pressed (K_LEFT keys)) dt
              (steer_x mo) in
  let sy := steer_vertical (pressed (K_DOWN keys)) (pressed (K_UP keys)) dt
              (steer_y mo) in
  let speed_mult := boost (K_SPACE keys) in
  let (rot, spi) := sway (Main.spiral_enabled m) dt (rotation mo) (spiral mo) in
  let (audio_level, speed_mult) := Main.audio_influence m speed_mult in
  ({| steer_x := sx; steer_y := sy; rotation := rot; spiral := spi |},
   {| Main.steer_x := sx; Main.steer_y := sy; Main.rotation := rot;
      Main.spiral := spi; Main.speed_base := BASE_SPEED;
      Main.speed_mult := speed_mult; Main.audio_level := audio_level;
      Main.trails := Main.trails_enabled m; Main.colors := Main.color_mode m;
      Main.audio := Main.audio_enabled m |}).

Section Frames.
Variable src : Random.Source.
Variables cos sin : Q -> Q.

(** [[Star(WIDTH, HEIGHT) for _ in range(n)]] (line 218). *)
Fixpoint make_stars (n : nat) : Random.M (list Star.t) :=
  match n with
  | O => Random.ret []
  | S n' =>
      star <- Star.init src WIDTH HEIGHT ;;
      rest <- make_stars n' ;;
      Random.ret (star :: rest)
  end.

(** One pass of the loop body after the events (lines 274-362): the floats
    carried on, the stars, the shooting stars and the draw calls.  [None] is
    an exception that ends the program. *)
Definition frame (m : Main.Modes) (keys : Keys) (ticks : Z) (mo : Motion)
                 (stars : list Star.t) (sky : Main.Sky)
  : Random.M (option (Motion * list Star.t * Main.Sky * list Draw.Cmd)) :=
  let (mo', v) := controls m keys ticks mo in
  r <- Main.render src cos sin v stars sky ;;
  Random.ret
    match r with
    | Some (stars', sky', cmds) => Some (mo', stars', sky', cmds)
    | None => None
    end.
End Frames.

End Loop.

(** ** Vocabulary of the statements *)

(** The level is within the heuristic range. *)
Definition level_ok (a : AudioAnalyzer.t) : Prop :=
  0.0 <= AudioAnalyzer.get_level a /\ AudioAnalyzer.get_level a <= 1.5.

(** The star [reset] builds from draw [k] on, with [z] replaced by the
    far-range draw that follows. *)
Definition respawned (src : Random.Source) (s : Star.t) (k : nat) : Star.t :=
  let u := Random.unit_draw src in
  {| Star.w := Star.w s; Star.h := Star.h s;
     Star.x := - Star.w s + (Star.w s - - Star.w s) * u k;
     Star.y := - Star.h s + (Star.h s - - Star.h s) * u (1 + k)%nat;
     Star.z := Star.w s * 0.6 + (Star.w s - Star.w s * 0.6) * u (5 + k)%nat;
     Star.prev := [];
     Star.base_size := 0.8 + (3.2 - 0.8) * u (3 + k)%nat;
     Star.brightness := 0.6 + (1.0 - 0.6) * u (4 + k)%nat;
     Star.is_shooting := false |}.

Definition screen_x (s : Star.t) (offset_x : Q) : Q :=
  Star.x s / Star.z s * (Star.w s / 2) + Star.w s / 2 + offset_x.

Definition screen_y (s : Star.t) (offset_y : Q) : Q :=
  Star.y s / Star.z s * (Star.h s / 2) + Star.h s / 2 + offset_y.

Definition projected (s : Star.t) (offset_x offset_y : Q) : Point3 :=
  (screen_x s offset_x, screen_y s offset_y, Star.z s).

(** The trimming step of [update] (lines 128-130). *)
Definition trimmed (p : Point3) (old : list Point3) : list Point3 :=
  if (TRAIL_LENGTH <? List.length (p :: old))%nat
  then Py.pop (p :: old) else p :: old.

(** The trail after the new point went in front of [old]. *)
Definition trail (p : Point3) (old : list Point3) : list Point3 :=
  p :: (if (List.length old <? TRAIL_LENGTH)%nat then old else removelast old).

(** The star [update] works on once [z] has been decremented. *)
Definition advanced (cos sin : Q -> Q) (s : Star.t) (speed rotation spiral : Q)
  : Star.t :=
  Star.set_z (Star.swirl cos sin s rotation spiral) (Star.z s - speed).

(** [n] calls of [ShootingStar.update] on the same object. *)
Fixpoint updates (n : nat) (s : ShootingStar.t) : ShootingStar.t :=
  match n with
  | O => s
  | S n' => updates n' (fst (ShootingStar.update s))
  end.

(** The border of the screen rectangle. *)
Definition on_screen_edge (width height px py : Q) : Prop :=
  ((px == 0 \/ px == width) /\ 0 <= py /\ py <= height) \/
  ((py == 0 \/ py == height) /\ 0 <= px /\ px <= width).

(** The side [random.choice] picks at draw [k]. *)
Definition spawn_edge (src : Random.Source) (k : nat) : ShootingStar.Edge :=
  nth (Z.to_nat (Random.below_draw src k 3))
      [ShootingStar.top; ShootingStar.left; ShootingStar.right]
      ShootingStar.top.

(** The object behind [r] is about to reach its lifetime. *)
Definition expires (hp : nat -> option ShootingStar.t) (r : nat) : Prop :=
  exists s, hp r = Some s /\ snd (ShootingStar.update s) = false.

(** References are distinct and were all handed out already. *)
Definition sky_ok (sky : Main.Sky) : Prop :=
  NoDup (Main.shooting sky) /\
  forall r, In r (Main.shooting sky) -> (r < Main.next_ref sky)%nat.

(** The guarded position: where the circle is centred and every trail line
    ends. *)
Definition drawn_at (c : Draw.Cmd) : Q * Q :=
  match c with
  | Draw.circle _ _ center _ => center
  | Draw.line _ _ _ end_pos _ => end_pos
  end.

(** A colour pygame accepts: every component, alpha included, is a byte. *)
Definition valid_color (col : list Z) : Prop :=
  Forall (fun c => (0 <= c <= 255)%Z) col.

(** A draw call with a valid colour and a radius or width of at least 1. *)
Definition valid_call (c : Draw.Cmd) : Prop :=
  match c with
  | Draw.circle _ col _ radius => valid_color col /\ (1 <= radius)%Z
  | Draw.line _ col _ _ width => valid_color col /\ (1 <= width)%Z
  end.

(** The surface a call draws on. *)
Definition target (c : Draw.Cmd) : Draw.Surface :=
  match c with
  | Draw.circle surf _ _ _ => surf
  | Draw.line surf _ _ _ _ => surf
  end.

(** The pixel a projected point is drawn at. *)
Definition pixel_of (p : Point3) : Q * Q :=
  (inject_Z (Py.int (fst (fst p))), inject_Z (Py.int (snd (fst p)))).

(** A star of the screen's width between the near plane and the far end. *)
Definition star_in_range (s : Star.t) : Prop :=
  Star.w s = WIDTH /\ 0.9 < Star.z s /\ Star.z s <= WIDTH.

(** The object behind [r] is still alive after its next update. *)
Definition survives (hp : nat -> option ShootingStar.t) (r : nat) : bool :=
  match hp r with
  | Some s => snd (ShootingStar.update s)
  | None => false
  end.

(** Every reference of the collection has its object, younger than its
    lifetime. *)
Definition sky_alive (sky : Main.Sky) : Prop :=
  sky_ok sky /\
  forall r, In r (Main.shooting sky) ->
    exists s, Main.heap sky r = Some s /\
              (ShootingStar.age s < ShootingStar.life s)%Z.

(** The events that end the loop: the window's close button, escape and q. *)
Definition quits (event : Main.Event) : bool :=
  match event with
  | Main.QUIT | Main.KEYDOWN Main.K_ESCAPE | Main.KEYDOWN Main.K_q => true
  | _ => false
  end.

(** A press of the audio key. *)
Definition audio_key (event : Main.Event) : bool :=
  match event with
  | Main.KEYDOWN Main.K_a => true
  | _ => false
  end.

(** The speed the loop passes to [star.update] (lines 313-317), with the
    draw counter after it. *)
Definition step_speed (src : Random.Source) (v : Main.View) (star : Star.t)
  : Random.M Q :=
  let s := (WIDTH - Star.z star) / WIDTH in
  let speed := (Main.speed_base v * (1.0 + s * 4.0)) * Main.speed_mult v in
  if Main.audio v then
    Random.bind (Random.uniform src 0.8 1.2)
      (fun r => Random.ret (speed * (1.0 + Main.audio_level v * 0.8 * r)))
  else Random.ret speed.

(** The three channels of [color_gradient] before [int] truncates them. *)
Definition smooth_gradient (t : Q) : Q * Q * Q :=
  let t := clamped t in
  if Py.Qltb t 0.33 then
    let tt := t / 0.33 in (lerp 80 255 tt, lerp 120 255 tt, lerp 200 255 tt)
  else if Py.Qltb t 0.66 then
    let tt := (t - 0.33) / 0.33 in
    (lerp 255 255 tt, lerp 255 220 tt, lerp 255 80 tt)
  else
    let tt := (t - 0.66) / 0.34 in
    (lerp 255 255 tt, lerp 220 100 tt, lerp 80 40 tt).

(** ** Concrete runs *)

Module Scenario.

(** A generator whose every [random()] is 0.5 and every [randbelow] is 0:
    no shooting star spawns (0.5 is not below 0.002). *)
Definition half : Random.Source :=
  {| Random.unit_draw := fun _ => 0.5; Random.below_draw := fun _ _ => 0%Z |}.

(** A generator whose every [random()] is 0 and every [randbelow(n)] is 1
    (0 when [n] is 1): a shooting star spawns in every frame, on the left. *)
Definition zeros : Random.Source :=
  {| Random.unit_draw := fun _ => 0;
     Random.below_draw := fun _ n => if (1 <? n)%Z then 1%Z else 0%Z |}.

(** Stand-ins for [math.cos] and [math.sin]; the runs below keep the
    rotation at zero, where [update] calls neither. *)
Definition flat_cos : Q -> Q := fun _ => 1.
Definition flat_sin : Q -> Q := fun _ => 0.

(** A far star whose projection is 2.8 pixels left of the screen. *)
Definition far_star : Star.t :=
  {| Star.w := WIDTH; Star.h := HEIGHT; Star.x := -904; Star.y := 0;
     Star.z := 900; Star.prev := []; Star.base_size := 2;
     Star.brightness := 0.8; Star.is_shooting := false |}.

(** A star about to reach the viewer, with two points of history. *)
Definition near_star : Star.t :=
  {| Star.w := WIDTH; Star.h := HEIGHT; Star.x := 1; Star.y := 1;
     Star.z := 1; Star.prev := [(900, 600, 1.8); (800, 550, 2.6)];
     Star.base_size := 2; Star.brightness := 0.8; Star.is_shooting := false |}.

(** Base speed, no boost, no audio, trails and colours on. *)
Definition view (steer_x : Q) : Main.View :=
  {| Main.steer_x := steer_x; Main.steer_y := 0; Main.rotation := 0;
     Main.spiral := 0; Main.speed_base := BASE_SPEED; Main.speed_mult := 1.0;
     Main.audio_level := 0.0; Main.trails := true; Main.colors := true;
     Main.audio := false |}.

Definition empty_sky : Main.Sky :=
  {| Main.heap := fun _ => None; Main.shooting := []; Main.next_ref := 0%nat |}.

(** First frame: no key held.  The star is updated and not drawn. *)
Definition frame1 : option (list Star.t * Main.Sky * list Draw.Cmd) * nat :=
  Main.render half flat_cos flat_sin (view 0) [far_star] empty_sky 0%nat.

Definition stars1 : list Star.t :=
  match fst frame1 with Some (stars, _, _) => stars | None => [] end.

(** Second frame: the right arrow is held and the frame took 16 ms. *)
Definition frame2 : option (list Star.t * Main.Sky * list Draw.Cmd) * nat :=
  Main.render half flat_cos flat_sin (view (Main.steer 1 0 0.016 0))
    stars1 empty_sky (snd frame1).

Definition draws2 : list Draw.Cmd :=
  match fst frame2 with Some (_, _, cmds) => cmds | None => [] end.

(** A frame in which a shooting star spawns. *)
Definition streak_draws : list Draw.Cmd :=
  snd (fst (Main.shooting_frame zeros empty_sky 0%nat)).

(** The sky once that shooting star has spawned. *)
Definition sky1 : Main.Sky := fst (Main.spawn zeros empty_sky 0%nat).

(** The modes at start-up without the audio modules, on a 2-pixel surface
    that holds some trail. *)
Definition modes0 : Main.Modes :=
  Main.setup false Main.escapes [(255, 255, 255, 200); (123, 153, 213, 110)]%Z.

End Scenario.

Module Sample.

(** No key held. *)
Definition idle : Loop.Keys :=
  {| Loop.K_RIGHT := false; Loop.K_LEFT := false; Loop.K_DOWN := false;
     Loop.K_UP := false; Loop.K_SPACE := false |}.

(** Right arrow and space held. *)
Definition right_boost : Loop.Keys :=
  {| Loop.K_RIGHT := true; Loop.K_LEFT := false; Loop.K_DOWN := false;
     Loop.K_UP := false; Loop.K_SPACE := true |}.

(** The floats of the loop at start-up (lines 222-227). *)
Definition still : Loop.Motion :=
  {| Loop.steer_x := 0.0; Loop.steer_y := 0.0; Loop.rotation := 0.0;
     Loop.spiral := 0.0 |}.

(** The modes at start-up with the audio modules and a working stream, on a
    one-pixel surface. *)
Definition modes_audio : Main.Modes :=
  Main.setup true (Main.returns AudioAnalyzer.started) [(0, 0, 0, 0)%Z].

(** A star on the screen, with the point of the frame before in its
    history. *)
Definition mid_star : Star.t :=
  {| Star.w := WIDTH; Star.h := HEIGHT; Star.x := 100; Star.y := 50;
     Star.z := 500; Star.prev := [(599.5, 374.8, 502.4)];
     Star.base_size := 2; Star.brightness := 0.8; Star.is_shooting := false |}.

(** The point (0.6, 0.8) of the unit circle, standing for [math.cos] and
    [math.sin] at an angle that is not zero. *)
Definition turn_cos : Q -> Q := fun _ => 0.6.
Definition turn_sin : Q -> Q := fun _ => 0.8.

(** A queue in which a quit is followed by other keys. *)
Definition quit_then_keys : list Main.Event :=
  [Main.KEYDOWN Main.K_s; Main.QUIT; Main.KEYDOWN Main.K_c;
   Main.KEYDOWN Main.K_t].

End Sample.

(** * Proofs *)

(** ** Facts about the built-ins *)

Lemma Qltb_lt (a b : Q) : Py.Qltb a b = true <-> a < b.
Proof. unfold Py.Qltb, Qlt. apply Z.ltb_lt. Qed.

Lemma Qltb_ge (a b : Q) : Py.Qltb a b = false <-> b <= a.
Proof. unfold Py.Qltb, Qle. apply Z.ltb_ge. Qed.

Lemma Qltb_spec (a b : Q) : BoolSpec (a < b) (b <= a) (Py.Qltb a b).
Proof.
  destruct (Py.Qltb a b) eqn:E; constructor.
  - now apply Qltb_lt.
  - now apply Qltb_ge.
Qed.

Lemma Qle_bool_false (a b : Q) : Qle_bool a b = false -> b < a.
Proof.
  intros E. destruct (Qlt_le_dec b a) as [H | H]; [exact H |].
  apply Qle_bool_iff in H. congruence.
Qed.

Lemma int_floor (q : Q) : 0 <= q -> Py.int q = Qfloor q.
Proof.
  destruct q as [n d]. unfold Qle, Py.int, Qfloor. simpl. intros H.
  apply Z.quot_div_nonneg; lia.
Qed.

Lemma int_between (lo hi : Z) (q : Q) :
  (0 <= lo)%Z -> inject_Z lo <= q -> q <= inject_Z hi ->
  (lo <= Py.int q <= hi)%Z.
Proof.
  intros Hlo H1 H2.
  assert (H0 : 0 <= q).
  { apply Qle_trans with (inject_Z lo); [| exact H1].
    change 0 with (inject_Z 0). now rewrite <- Zle_Qle. }
  rewrite (int_floor q H0). split.
  - rewrite <- (Qfloor_Z lo). now apply Qfloor_resp_le.
  - rewrite <- (Qfloor_Z hi). now apply Qfloor_resp_le.
Qed.

Lemma int_mono (p q : Q) : 0 <= p -> p <= q -> (Py.int p <= Py.int q)%Z.
Proof.
  intros H0 H. rewrite (int_floor p H0).
  rewrite (int_floor q (Qle_trans _ _ _ H0 H)). now apply Qfloor_resp_le.
Qed.

Lemma int_exact (z : Z) (q : Q) : (0 <= z)%Z -> q == inject_Z z -> Py.int q = z.
Proof.
  intros Hz H.
  assert (lo : (z <= Py.int q <= z)%Z).
  { apply int_between; [exact Hz | |]; rewrite H; apply Qle_refl. }
  lia.
Qed.

Lemma clamp_bounds (v a b : Q) : a <= b -> a <= clamp v a b /\ clamp v a b <= b.
Proof.
  intros Hab. unfold clamp, Py.max, Py.min.
  destruct (Qltb_spec v b) as [H | H];
    [destruct (Qltb_spec a v) | destruct (Qltb_spec a b)]; split; lra.
Qed.

(** Unfolds division by a literal into a product lra can use. *)
Ltac qlit := unfold lerp, Qdiv; cbn [Qinv Qnum Qden].

Ltac channel_bounds :=
  apply int_between; [lia | qlit; unfold inject_Z; lra | qlit; unfold inject_Z; lra].

(** ** The colour gradient *)

Lemma blue_to_white_range (t : Q) : 0 <= t -> t <= 0.33 ->
  let c := blue_to_white t in
  (80 <= red c <= 255 /\ 120 <= green c <= 255 /\ 200 <= blue c <= 255)%Z.
Proof.
  intros H0 H1. unfold blue_to_white, red, green, blue. cbn [fst snd].
  split; [| split]; channel_bounds.
Qed.

Lemma white_to_yellow_range (t : Q) : 0.33 <= t -> t <= 0.66 ->
  let c := white_to_yellow t in
  (255 <= red c <= 255 /\ 220 <= green c <= 255 /\ 80 <= blue c <= 255)%Z.
Proof.
  intros H0 H1. unfold white_to_yellow, red, green, blue. cbn [fst snd].
  split; [| split]; channel_bounds.
Qed.

Lemma yellow_to_red_range (t : Q) : 0.66 <= t -> t <= 1 ->
  let c := yellow_to_red t in
  (255 <= red c <= 255 /\ 100 <= green c <= 220 /\ 40 <= blue c <= 80)%Z.
Proof.
  intros H0 H1. unfold yellow_to_red, red, green, blue. cbn [fst snd].
  split; [| split]; channel_bounds.
Qed.

Lemma clamped_range (t : Q) : 0 <= clamped t /\ clamped t <= 1.
Proof.
  unfold clamped. destruct (Qltb_spec t 0).
  - destruct (Qltb_spec 1 0); lra.
  - destruct (Qltb_spec 1 t); lra.
Qed.

Lemma clamped_mono (t u : Q) : t <= u -> clamped t <= clamped u.
Proof.
  intros H. unfold clamped.
  destruct (Qltb_spec t 0), (Qltb_spec u 0);
    repeat match goal with
           | |- context [Py.Qltb ?a ?b] => destruct (Qltb_spec a b)
           end; lra.
Qed.

Lemma color_gradient_cases (t : Q) :
  color_gradient t =
    if Py.Qltb (clamped t) 0.33 then blue_to_white (clamped t)
    else if Py.Qltb (clamped t) 0.66 then white_to_yellow (clamped t)
    else yellow_to_red (clamped t).
Proof. reflexivity. Qed.

Lemma gradient_channels (t : Q) :
  (0 <= red (color_gradient t) <= 255 /\
   0 <= green (color_gradient t) <= 255 /\
   0 <= blue (color_gradient t) <= 255)%Z.
Proof.
  rewrite color_gradient_cases.
  destruct (clamped_range t) as [H0 H1].
  destruct (Qltb_spec (clamped t) 0.33) as [Ha | Ha].
  - pose proof (blue_to_white_range (clamped t) H0 ltac:(lra)) as R.
    cbv zeta in R. lia.
  - destruct (Qltb_spec (clamped t) 0.66) as [Hb | Hb].
    + pose proof (white_to_yellow_range (clamped t) Ha ltac:(lra)) as R.
      cbv zeta in R. lia.
    + pose proof (yellow_to_red_range (clamped t) Hb H1) as R.
      cbv zeta in R. lia.
Qed.

Lemma clamped_below (t : Q) : t <= 0 -> clamped t == 0.
Proof.
  intros H. unfold clamped. destruct (Qltb_spec t 0).
  - destruct (Qltb_spec 1 0); lra.
  - destruct (Qltb_spec 1 t); lra.
Qed.

Lemma clamped_above (t : Q) : 1 <= t -> clamped t == 1.
Proof.
  intros H. unfold clamped. destruct (Qltb_spec t 0); [lra |].
  destruct (Qltb_spec 1 t); lra.
Qed.

Lemma clamped_inside (t : Q) : 0 <= t -> t <= 1 -> clamped t == t.
Proof.
  intros H0 H1. unfold clamped. destruct (Qltb_spec t 0).
  - destruct (Qltb_spec 1 0); lra.
  - destruct (Qltb_spec 1 t); lra.
Qed.

Lemma clamped_lt (t b : Q) : 0 < b -> t < b -> clamped t < b.
Proof.
  intros Hb H. unfold clamped. destruct (Qltb_spec t 0).
  - destruct (Qltb_spec 1 0); lra.
  - destruct (Qltb_spec 1 t); lra.
Qed.

Lemma clamped_ge (t b : Q) : b <= 1 -> b <= t -> b <= clamped t.
Proof.
  intros Hb H. unfold clamped. destruct (Qltb_spec t 0).
  - destruct (Qltb_spec 1 0); lra.
  - destruct (Qltb_spec 1 t); lra.
Qed.

Ltac channel_mono :=
  apply int_mono; qlit; lra.

Ltac channel_exact :=
  apply int_exact; [lia | qlit; unfold inject_Z; lra].

Lemma blue_to_white_mono (t u : Q) : 0 <= t -> t <= u ->
  (red (blue_to_white t) <= red (blue_to_white u) /\
   green (blue_to_white t) <= green (blue_to_white u) /\
   blue (blue_to_white t) <= blue (blue_to_white u))%Z.
Proof.
  intros H0 H. unfold blue_to_white, red, green, blue. cbn [fst snd].
  split; [| split]; channel_mono.
Qed.

Lemma white_to_yellow_mono (t u : Q) : 0.33 <= t -> t <= u -> u <= 0.66 ->
  (red (white_to_yellow t) = red (white_to_yellow u) /\
   green (white_to_yellow u) <= green (white_to_yellow t) /\
   blue (white_to_yellow u) <= blue (white_to_yellow t))%Z.
Proof.
  intros H0 H H1. unfold white_to_yellow, red, green, blue. cbn [fst snd].
  split; [| split]; [| channel_mono | channel_mono].
  transitivity 255%Z; [| symmetry]; channel_exact.
Qed.

Lemma yellow_to_red_mono (t u : Q) : 0.66 <= t -> t <= u -> u <= 1 ->
  (red (yellow_to_red t) = red (yellow_to_red u) /\
   green (yellow_to_red u) <= green (yellow_to_red t) /\
   blue (yellow_to_red u) <= blue (yellow_to_red t))%Z.
Proof.
  intros H0 H H1. unfold yellow_to_red, red, green, blue. cbn [fst snd].
  split; [| split]; [| channel_mono | channel_mono].
  transitivity 255%Z; [| symmetry]; channel_exact.
Qed.

Lemma color_gradient_first (t : Q) :
  clamped t < 0.33 -> color_gradient t = blue_to_white (clamped t).
Proof.
  intros H. rewrite color_gradient_cases.
  destruct (Qltb_spec (clamped t) 0.33); [reflexivity | lra].
Qed.

Lemma color_gradient_second (t : Q) :
  0.33 <= clamped t -> clamped t < 0.66 ->
  color_gradient t = white_to_yellow (clamped t).
Proof.
  intros H0 H1. rewrite color_gradient_cases.
  destruct (Qltb_spec (clamped t) 0.33); [lra |].
  destruct (Qltb_spec (clamped t) 0.66); [reflexivity | lra].
Qed.

Lemma color_gradient_third (t : Q) :
  0.66 <= clamped t -> color_gradient t = yellow_to_red (clamped t).
Proof.
  intros H. rewrite color_gradient_cases.
  destruct (Qltb_spec (clamped t) 0.33); [lra |].
  destruct (Qltb_spec (clamped t) 0.66); [lra | reflexivity].
Qed.

Lemma clamped_id (t : Q) : 0 <= t -> t <= 1 -> clamped t = t.
Proof.
  intros H0 H1. unfold clamped.
  destruct (Qltb_spec t 0); [lra |].
  destruct (Qltb_spec 1 t); [lra | reflexivity].
Qed.

Lemma clamped_step (t u : Q) : t <= u -> clamped u - clamped t <= u - t.
Proof.
  intros H. unfold clamped.
  destruct (Qltb_spec t 0), (Qltb_spec u 0);
    repeat match goal with
           | |- context [Py.Qltb ?a ?b] => destruct (Qltb_spec a b)
           end; lra.
Qed.

Lemma gradient_truncates (t : Q) :
  color_gradient t =
    (Py.int (fst (fst (smooth_gradient t))),
     Py.int (snd (fst (smooth_gradient t))),
     Py.int (snd (smooth_gradient t))).
Proof.
  unfold color_gradient, smooth_gradient.
  destruct (Py.Qltb (clamped t) 0.33); [reflexivity |].
  destruct (Py.Qltb (clamped t) 0.66); reflexivity.
Qed.

Lemma smooth_nonneg (t : Q) :
  0 <= fst (fst (smooth_gradient t)) /\
  0 <= snd (fst (smooth_gradient t)) /\
  0 <= snd (smooth_gradient t).
Proof.
  unfold smooth_gradient. destruct (clamped_range t) as [H0 H1].
  set (c := clamped t) in *.
  destruct (Qltb_spec c 0.33); [| destruct (Qltb_spec c 0.66)];
    cbn [fst snd]; qlit; repeat split; lra.
Qed.

(** The channels before truncation change by at most 531 per unit of [t],
    across the segment boundaries too. *)
Lemma smooth_slope (t u : Q) :
  t <= u ->
  let a := smooth_gradient t in
  let b := smooth_gradient u in
  (fst (fst b) - fst (fst a) <= 531 * (u - t) /\
   fst (fst a) - fst (fst b) <= 531 * (u - t)) /\
  (snd (fst b) - snd (fst a) <= 531 * (u - t) /\
   snd (fst a) - snd (fst b) <= 531 * (u - t)) /\
  (snd b - snd a <= 531 * (u - t) /\
   snd a - snd b <= 531 * (u - t)).
Proof.
  intros H. cbv zeta. unfold smooth_gradient.
  pose proof (clamped_mono t u H) as M.
  pose proof (clamped_step t u H) as S.
  destruct (clamped_range t) as [T0 T1]. destruct (clamped_range u) as [U0 U1].
  set (ct := clamped t) in *. set (cu := clamped u) in *.
  destruct (Qltb_spec ct 0.33); [| destruct (Qltb_spec ct 0.66)];
    (destruct (Qltb_spec cu 0.33); [| destruct (Qltb_spec cu 0.66)]);
    cbn [fst snd]; qlit; repeat split; lra.
Qed.

Lemma int_step (p q : Q) :
  0 <= p -> 0 <= q -> inject_Z (Py.int p - Py.int q) <= p - q + 1.
Proof.
  intros Hp Hq. rewrite (int_floor p Hp), (int_floor q Hq).
  unfold Z.sub. rewrite inject_Z_plus, inject_Z_opp.
  pose proof (Qfloor_le p) as A. pose proof (Qlt_floor q) as B.
  rewrite inject_Z_plus in B. unfold inject_Z at 2 in B. lra.
Qed.

(** C6: [color_gradient] returns the blue endpoint (80, 120, 200) for every
    [t <= 0] and the red endpoint (255, 100, 40) for every [t >= 1]; at the
    boundaries 0.33 and 0.66 the branch on the left, evaluated there, gives
    the same colour as the branch on the right, which is the value of the
    function; inside each of the three segments every channel is
    monotonic in [t]: all three rise from blue to white, red stays and green
    and blue fall from white to yellow and from yellow to red; on each
    segment the function is that segment's branch; and it has no jump, at a
    boundary or elsewhere: between any two inputs a channel changes by at
    most 531 times their distance, plus the one unit that truncation to an
    integer costs. *)
Theorem color_gradient_clamped_continuous_monotonic :
  (forall t, t <= 0 -> color_gradient t = (80, 120, 200)%Z) /\
  (forall t, 1 <= t -> color_gradient t = (255, 100, 40)%Z) /\
  (blue_to_white 0.33 = white_to_yellow 0.33 /\
   white_to_yellow 0.33 = color_gradient 0.33 /\
   white_to_yellow 0.66 = yellow_to_red 0.66 /\
   yellow_to_red 0.66 = color_gradient 0.66) /\
  (forall t u, t <= u -> u < 0.33 ->
     (red (color_gradient t) <= red (color_gradient u) /\
      green (color_gradient t) <= green (color_gradient u) /\
      blue (color_gradient t) <= blue (color_gradient u))%Z) /\
  (forall t u, 0.33 <= t -> t <= u -> u < 0.66 ->
     (red (color_gradient t) = red (color_gradient u) /\
      green (color_gradient u) <= green (color_gradient t) /\
      blue (color_gradient u) <= blue (color_gradient t))%Z) /\
  (forall t u, 0.66 <= t -> t <= u ->
     (red (color_gradient t) = red (color_gradient u) /\
      green (color_gradient u) <= green (color_gradient t) /\
      blue (color_gradient u) <= blue (color_gradient t))%Z) /\
  ((forall t, 0 <= t -> t < 0.33 -> color_gradient t = blue_to_white t) /\
   (forall t, 0.33 <= t -> t < 0.66 -> color_gradient t = white_to_yellow t) /\
   (forall t, 0.66 <= t -> t <= 1 -> color_gradient t = yellow_to_red t)) /\
  (forall t u, t <= u ->
     (inject_Z (red (color_gradient u) - red (color_gradient t))
        <= 531 * (u - t) + 1 /\
      inject_Z (red (color_gradient t) - red (color_gradient u))
        <= 531 * (u - t) + 1) /\
     (inject_Z (green (color_gradient u) - green (color_gradient t))
        <= 531 * (u - t) + 1 /\
      inject_Z (green (color_gradient t) - green (color_gradient u))
        <= 531 * (u - t) + 1) /\
     (inject_Z (blue (color_gradient u) - blue (color_gradient t))
        <= 531 * (u - t) + 1 /\
      inject_Z (blue (color_gradient t) - blue (color_gradient u))
        <= 531 * (u - t) + 1)).
Proof.
  split; [| split; [| split; [| split; [| split; [| split; [| split]]]]]].
  - intros t H. pose proof (clamped_below t H) as E.
    rewrite color_gradient_first by lra.
    unfold blue_to_white. f_equal; [f_equal |]; channel_exact.
  - intros t H. pose proof (clamped_above t H) as E.
    rewrite color_gradient_third by lra.
    unfold yellow_to_red. f_equal; [f_equal |]; channel_exact.
  - repeat split; vm_compute; reflexivity.
  - intros t u H Hu.
    pose proof (clamped_lt u 0.33 ltac:(lra) Hu).
    pose proof (clamped_lt t 0.33 ltac:(lra) ltac:(lra)).
    rewrite !color_gradient_first by assumption.
    apply blue_to_white_mono; [apply clamped_range | now apply clamped_mono].
  - intros t u Ht H Hu.
    pose proof (clamped_inside t ltac:(lra) ltac:(lra)) as Et.
    pose proof (clamped_inside u ltac:(lra) ltac:(lra)) as Eu.
    rewrite !color_gradient_second by lra.
    apply white_to_yellow_mono; lra.
  - intros t u Ht H.
    pose proof (clamped_ge t 0.66 ltac:(lra) Ht).
    pose proof (clamped_ge u 0.66 ltac:(lra) ltac:(lra)).
    rewrite !color_gradient_third by assumption.
    apply yellow_to_red_mono;
      [assumption | now apply clamped_mono | apply clamped_range].
  - split; [| split]; intros t H0 H1.
    + rewrite color_gradient_first by (rewrite clamped_id; lra).
      now rewrite clamped_id by lra.
    + rewrite color_gradient_second by (rewrite clamped_id; lra).
      now rewrite clamped_id by lra.
    + rewrite color_gradient_third by (rewrite clamped_id; lra).
      now rewrite clamped_id by lra.
  - intros t u H. rewrite (gradient_truncates t), (gradient_truncates u).
    unfold red, green, blue. cbn [fst snd].
    destruct (smooth_nonneg t) as (T1 & T2 & T3).
    destruct (smooth_nonneg u) as (U1 & U2 & U3).
    destruct (smooth_slope t u H) as ((R1 & R2) & (G1 & G2) & (B1 & B2)).
    pose proof (int_step _ _ U1 T1). pose proof (int_step _ _ T1 U1).
    pose proof (int_step _ _ U2 T2). pose proof (int_step _ _ T2 U2).
    pose proof (int_step _ _ U3 T3). pose proof (int_step _ _ T3 U3).
    repeat split; lra.
Qed.

(** ** The audio level *)

Section AudioLevel.
Variable np_rms : list Q -> Q.
Variable np_fft_mean : list Q -> option Q.

Lemma callback_level_ok (a : AudioAnalyzer.t) (indata : list Q) :
  level_ok (AudioAnalyzer._callback np_rms np_fft_mean a indata).
Proof.
  unfold level_ok, AudioAnalyzer._callback, AudioAnalyzer.get_level.
  cbn [AudioAnalyzer.latest_level].
  destruct (np_fft_mean indata); apply clamp_bounds; lra.
Qed.

Lemma callbacks_level_ok (blocks : list (list Q)) :
  forall a, level_ok a ->
  level_ok (AudioAnalyzer.callbacks np_rms np_fft_mean a blocks).
Proof.
  unfold AudioAnalyzer.callbacks.
  induction blocks as [| b blocks IH]; intros a Ha; cbn [fold_left].
  - exact Ha.
  - apply IH, callback_level_ok.
Qed.

Lemma init_level_ok (outcome : AudioAnalyzer.StreamOutcome) :
  level_ok (fst (AudioAnalyzer.init outcome)).
Proof. destruct outcome; unfold level_ok; cbn; lra. Qed.

(** C9: [get_level] returns 0.0 on a new analyzer, before any callback has
    run, and after any sequence of callbacks, whichever of the FFT branch and
    the RMS fallback each of them took, it returns a value in [[0.0, 1.5]]. *)
Theorem audio_level_clamped (outcome : AudioAnalyzer.StreamOutcome)
                            (blocks : list (list Q)) :
  AudioAnalyzer.get_level (fst (AudioAnalyzer.init outcome)) = 0.0 /\
  0.0 <= AudioAnalyzer.get_level
           (AudioAnalyzer.callbacks np_rms np_fft_mean
              (fst (AudioAnalyzer.init outcome)) blocks) /\
  AudioAnalyzer.get_level
    (AudioAnalyzer.callbacks np_rms np_fft_mean
       (fst (AudioAnalyzer.init outcome)) blocks) <= 1.5.
Proof.
  split.
  - now destruct outcome.
  - apply callbacks_level_ok, init_level_ok.
Qed.
End AudioLevel.

(** ** Stars *)

(** A new star has no history, so the bound on the trail holds from the
    start. *)
Lemma init_prev_empty (src : Random.Source) (width height : Q) (k : nat) :
  Star.prev (fst (Star.init src width height k)) = [].
Proof. reflexivity. Qed.

Lemma uniform_range (src : Random.Source) (a b : Q) (k : nat) :
  Random.sound src -> a <= b ->
  a <= a + (b - a) * Random.unit_draw src k /\
  a + (b - a) * Random.unit_draw src k <= b.
Proof.
  intros [Hu _] Hab. destruct (Hu k) as [H0 H1].
  set (r := Random.unit_draw src k) in *. split; nra.
Qed.

Section StarFacts.
Variable src : Random.Source.
Variables cos sin : Q -> Q.
Hypothesis Hsrc : Random.sound src.

Lemma swirl_keeps (s : Star.t) (rotation spiral : Q) :
  Star.z (Star.swirl cos sin s rotation spiral) = Star.z s /\
  Star.w (Star.swirl cos sin s rotation spiral) = Star.w s /\
  Star.h (Star.swirl cos sin s rotation spiral) = Star.h s /\
  Star.prev (Star.swirl cos sin s rotation spiral) = Star.prev s.
Proof.
  unfold Star.swirl.
  destruct (negb (Qeq_bool rotation 0)), (negb (Qeq_bool spiral 0));
    repeat split; reflexivity.
Qed.

Lemma approach_far (s : Star.t) (speed : Q) (k : nat) :
  0.9 < Star.z s - speed ->
  Star.approach src s speed k = (Star.set_z s (Star.z s - speed), k).
Proof.
  intros H. unfold Star.approach. cbn [Star.z Star.set_z].
  destruct (Qle_bool (Star.z s - speed) 0.9) eqn:E; [| reflexivity].
  apply Qle_bool_iff in E. lra.
Qed.

Lemma approach_near (s : Star.t) (speed : Q) (k : nat) :
  Star.z s - speed <= 0.9 ->
  Star.approach src s speed k = (respawned src s k, (6 + k)%nat).
Proof.
  intros H. unfold Star.approach. cbn [Star.z Star.set_z].
  destruct (Qle_bool (Star.z s - speed) 0.9) eqn:E.
  - reflexivity.
  - apply Qle_bool_false in E. lra.
Qed.

Lemma trimmed_trail (p : Point3) (old : list Point3) :
  (List.length old <= TRAIL_LENGTH)%nat -> trimmed p old = trail p old.
Proof.
  intros Hlen. unfold trimmed, trail, Py.pop. cbn [List.length].
  unfold TRAIL_LENGTH in *.
  destruct (Nat.ltb_spec 6 (S (List.length old)));
    destruct (Nat.ltb_spec (List.length old) 6); try lia.
  - destruct old as [| q old]; [cbn in *; lia | reflexivity].
  - reflexivity.
Qed.

Lemma project_some (s : Star.t) (offset_x offset_y : Q) :
  ~ Star.z s == 0 ->
  Star.project s offset_x offset_y =
    Some (Star.set_prev s (trimmed (projected s offset_x offset_y) (Star.prev s)),
          projected s offset_x offset_y).
Proof.
  intros Hz. unfold Star.project, Py.div.
  destruct (Qeq_bool (Star.z s) 0) eqn:E.
  - apply Qeq_bool_iff in E. contradiction.
  - reflexivity.
Qed.

Lemma trail_length (p : Point3) (old : list Point3) :
  (List.length old <= TRAIL_LENGTH)%nat ->
  (List.length (trail p old) <= TRAIL_LENGTH)%nat.
Proof.
  intros H. unfold trail. cbn [List.length]. unfold TRAIL_LENGTH in *.
  destruct (Nat.ltb_spec (List.length old) 6); [lia |].
  destruct old as [| q old]; [cbn in *; lia |].
  rewrite removelast_firstn_len, length_firstn. cbn [List.length] in *. lia.
Qed.

Lemma respawned_same (s s1 : Star.t) (k : nat) :
  Star.w s1 = Star.w s -> Star.h s1 = Star.h s ->
  respawned src s1 k = respawned src s k.
Proof. intros Hw Hh. unfold respawned. now rewrite Hw, Hh. Qed.

Lemma respawned_z_far (s : Star.t) (k : nat) :
  0 <= Star.w s ->
  Star.w s * 0.6 <= Star.z (respawned src s k) /\ Star.z (respawned src s k) <= Star.w s.
Proof.
  intros Hw. cbn [respawned Star.z].
  apply (uniform_range src); [exact Hsrc | lra].
Qed.

Lemma update_far (s : Star.t) (speed offset_x offset_y rotation spiral : Q)
                 (k : nat) :
  0.9 < Star.z s - speed ->
  let a := advanced cos sin s speed rotation spiral in
  Star.update src cos sin s speed offset_x offset_y rotation spiral k =
    (Some (Star.set_prev a (trimmed (projected a offset_x offset_y) (Star.prev s)),
           projected a offset_x offset_y), k).
Proof.
  intros H a. unfold Star.update, Random.bind.
  destruct (swirl_keeps s rotation spiral) as (Ez & _ & _ & Ep).
  rewrite approach_far by (rewrite Ez; exact H). rewrite Ez.
  fold (advanced cos sin s speed rotation spiral). fold a.
  unfold Random.ret. rewrite project_some.
  - subst a. unfold advanced. cbn [Star.prev Star.set_z]. now rewrite Ep.
  - subst a. unfold advanced. cbn [Star.z Star.set_z]. lra.
Qed.

Lemma update_near (s : Star.t) (speed offset_x offset_y rotation spiral : Q)
                  (k : nat) :
  Star.z s - speed <= 0.9 -> 1.5 < Star.w s ->
  let r := respawned src s k in
  Star.update src cos sin s speed offset_x offset_y rotation spiral k =
    (Some (Star.set_prev r [projected r offset_x offset_y],
           projected r offset_x offset_y), (6 + k)%nat).
Proof.
  intros H Hw r. unfold Star.update, Random.bind.
  destruct (swirl_keeps s rotation spiral) as (Ez & Ew & Eh & _).
  rewrite approach_near by (rewrite Ez; exact H).
  rewrite (respawned_same s) by (cbn [Star.w Star.h Star.set_z]; assumption).
  fold r. unfold Random.ret.
  destruct (respawned_z_far s k ltac:(lra)) as [Hz _]. fold r in Hz.
  rewrite project_some by lra. reflexivity.
Qed.

(** C1: [Star.update] completes and leaves [z] strictly above the near
    plane 0.9.  When decrementing [z] by the speed makes it at most 0.9 the
    star is respawned: [x] and [y] are fresh uniform draws over
    [[-w, w]] and [[-h, h]] and [z] is a fresh uniform draw over the far
    range [[0.6 w, w]].  Otherwise [z] is the decremented value.  The
    width is the screen's, 1000; anything above 1.5 will do. *)
Theorem update_keeps_z_beyond_near_plane
    (s : Star.t) (speed offset_x offset_y rotation spiral : Q) (k : nat) :
  1.5 < Star.w s ->
  exists s' p k',
    Star.update src cos sin s speed offset_x offset_y rotation spiral k =
      (Some (s', p), k') /\
    0.9 < Star.z s' /\
    (Star.z s - speed <= 0.9 ->
       Star.x s' = fst (Random.uniform src (- Star.w s) (Star.w s) k) /\
       Star.y s' = fst (Random.uniform src (- Star.h s) (Star.h s) (1 + k)%nat) /\
       Star.z s' = fst (Random.uniform src (Star.w s * 0.6) (Star.w s) (5 + k)%nat) /\
       Star.w s * 0.6 <= Star.z s' /\ Star.z s' <= Star.w s) /\
    (0.9 < Star.z s - speed -> Star.z s' = Star.z s - speed).
Proof.
  intros Hw. destruct (Qlt_le_dec 0.9 (Star.z s - speed)) as [H | H].
  - eexists _, _, _. split; [apply update_far; assumption |].
    cbn [Star.z Star.set_prev advanced Star.set_z].
    split; [exact H |]. split; [lra | reflexivity].
  - eexists _, _, _. split; [apply update_near; assumption |].
    destruct (respawned_z_far s k ltac:(lra)) as [Hz Hz'].
    cbn [Star.z Star.x Star.y Star.set_prev] in *.
    split; [lra |]. split; [| lra].
    intros _. repeat split; assumption || reflexivity.
Qed.

(** C5, as the code has it: after [Star.update] the newly projected point
    is at the front of the history and the length is at most
    [TRAIL_LENGTH].  When the star was not respawned the rest of the
    history is the old one, less its single oldest entry if it was full.
    When the star was respawned, [reset] has emptied the history and the
    new point is its only entry. *)
Theorem update_trail_bounded
    (s : Star.t) (speed offset_x offset_y rotation spiral : Q) (k : nat) :
  1.5 < Star.w s ->
  (List.length (Star.prev s) <= TRAIL_LENGTH)%nat ->
  exists s' p k',
    Star.update src cos sin s speed offset_x offset_y rotation spiral k =
      (Some (s', p), k') /\
    hd_error (Star.prev s') = Some p /\
    (List.length (Star.prev s') <= TRAIL_LENGTH)%nat /\
    (0.9 < Star.z s - speed ->
       Star.prev s' =
         p :: (if (List.length (Star.prev s) <? TRAIL_LENGTH)%nat
               then Star.prev s else removelast (Star.prev s))) /\
    (Star.z s - speed <= 0.9 -> Star.prev s' = [p]).
Proof.
  intros Hw Hlen. destruct (Qlt_le_dec 0.9 (Star.z s - speed)) as [H | H].
  - eexists _, _, _. split; [apply update_far; assumption |].
    cbn [Star.prev Star.set_prev]. rewrite trimmed_trail by exact Hlen.
    split; [reflexivity |]. split; [now apply trail_length |].
    split; [reflexivity | intros H'; exfalso; lra].
  - eexists _, _, _. split; [apply update_near; assumption |].
    cbn [Star.prev Star.set_prev].
    split; [reflexivity |]. split; [unfold TRAIL_LENGTH; cbn; lia |].
    split; [intros H'; exfalso; lra | reflexivity].
Qed.
End StarFacts.

(** ** Event handling and audio set-up *)

(** C7: pressing the trails key while trails are enabled turns trails off
    and, in the same event-handling step, resets every pixel of the trail
    surface to (0, 0, 0, 0), fully transparent; the surface keeps its size and
    every other mode flag, the analyzer and the output are unchanged. *)
Theorem trails_toggle_off_clears_trail_surface
    (AUDIO_AVAILABLE : bool) (m : Main.Modes) :
  Main.trails_enabled m = true ->
  let m' := Main.handle_event AUDIO_AVAILABLE (Main.KEYDOWN Main.K_t) m in
  Main.trails_enabled m' = false /\
  Forall (fun px => px = (0, 0, 0, 0)%Z) (Main.trail_pixels m') /\
  List.length (Main.trail_pixels m') = List.length (Main.trail_pixels m) /\
  Main.running m' = Main.running m /\
  Main.spiral_enabled m' = Main.spiral_enabled m /\
  Main.color_mode m' = Main.color_mode m /\
  Main.audio_enabled m' = Main.audio_enabled m /\
  Main.audio_analyzer m' = Main.audio_analyzer m /\
  Main.stdout m' = Main.stdout m.
Proof.
  intros H m'. subst m'. cbn. rewrite H. cbn.
  repeat split.
  - unfold Main.fill. apply Forall_forall. intros px Hin.
    apply in_map_iff in Hin. now destruct Hin as (_ & E & _).
  - unfold Main.fill. apply length_map.
Qed.

(** C4, evaluated where the stream constructor or its start raises, with
    the audio modules importable.  The message is printed, the analyzer
    is not running and its level stays 0.0, so the speed multiplier is
    multiplied by one; but [audio_enabled] is true from the start, and the
    audio key turns it off.  Only an exception that leaves
    [AudioAnalyzer()] gives [audio_enabled = False]. *)
Theorem audio_init_failure_leaves_sync_enabled
    (e : string) (pixels : list Main.RGBA) (speed_mult : Q) :
  let m := Main.setup true (Main.returns (AudioAnalyzer.raises e)) pixels in
  Main.stdout m = [("Audio init failed: " ++ e)%string] /\
  Main.audio_enabled m = true /\
  (exists a, Main.audio_analyzer m = Some a /\
             AudioAnalyzer.running a = false /\
             AudioAnalyzer.get_level a = 0.0) /\
  fst (Main.audio_influence m speed_mult) = 0.0 /\
  snd (Main.audio_influence m speed_mult) == speed_mult /\
  Main.audio_enabled (Main.handle_event true (Main.KEYDOWN Main.K_a) m) = false /\
  Main.audio_enabled (Main.setup true Main.escapes pixels) = false.
Proof.
  cbn zeta. split; [reflexivity |]. split; [reflexivity |].
  split; [eexists; repeat split |].
  split; [reflexivity |]. split; [| split; reflexivity].
  cbn. unfold Qeq. cbn. lia.
Qed.

(** ** Shooting stars *)

Lemma updates_line (n : nat) :
  forall s,
    ShootingStar.x (updates n s) == ShootingStar.x s + inject_Z (Z.of_nat n) * ShootingStar.vx s /\
    ShootingStar.y (updates n s) == ShootingStar.y s + inject_Z (Z.of_nat n) * ShootingStar.vy s /\
    ShootingStar.vx (updates n s) = ShootingStar.vx s /\
    ShootingStar.vy (updates n s) = ShootingStar.vy s /\
    ShootingStar.age (updates n s) = (ShootingStar.age s + Z.of_nat n)%Z /\
    ShootingStar.life (updates n s) = ShootingStar.life s.
Proof.
  induction n as [| n IH]; intros s.
  - cbn [updates Z.of_nat]. repeat split; try ring; unfold inject_Z; lra.
  - cbn [updates]. destruct (IH (fst (ShootingStar.update s))) as (Hx & Hy & Hvx & Hvy & Ha & Hl).
    cbn [ShootingStar.update fst ShootingStar.x ShootingStar.y ShootingStar.vx
         ShootingStar.vy ShootingStar.age ShootingStar.life] in *.
    rewrite Hx, Hy, Hvx, Hvy, Ha, Hl. rewrite Nat2Z.inj_succ.
    unfold Z.succ. rewrite inject_Z_plus.
    repeat split; ring.
Qed.

Section ShootingStarFacts.
Variable src : Random.Source.
Hypothesis Hsrc : Random.sound src.

Let u := Random.unit_draw src.

Lemma init_fields (width height : Q) (k : nat) :
  let s := fst (ShootingStar.init src width height k) in
  match spawn_edge src k with
  | ShootingStar.top =>
      ShootingStar.x s =
        - width / 4 + (width * 1.25 - - width / 4) * u (1 + k)%nat /\
      ShootingStar.y s = -20 /\
      ShootingStar.vx s = -6 + (6 - -6) * u (2 + k)%nat /\
      ShootingStar.vy s = 6 + (12 - 6) * u (3 + k)%nat
  | ShootingStar.left =>
      ShootingStar.x s = -20 /\
      ShootingStar.y s =
        - height / 4 + (height * 1.25 - - height / 4) * u (1 + k)%nat /\
      ShootingStar.vx s = 6 + (12 - 6) * u (2 + k)%nat /\
      ShootingStar.vy s = -3 + (3 - -3) * u (3 + k)%nat
  | ShootingStar.right =>
      ShootingStar.x s = width + 20 /\
      ShootingStar.y s =
        - height / 4 + (height * 1.25 - - height / 4) * u (1 + k)%nat /\
      ShootingStar.vx s = -12 + (-6 - -12) * u (2 + k)%nat /\
      ShootingStar.vy s = -3 + (3 - -3) * u (3 + k)%nat
  end /\
  ShootingStar.life s = (80 + Random.below_draw src (4 + k)%nat 81)%Z /\
  ShootingStar.age s = 0%Z.
Proof.
  unfold spawn_edge, ShootingStar.init, Random.bind, Random.choice.
  cbn [List.length Z.of_nat Pos.of_succ_nat Pos.succ].
  destruct (nth _ _ _); repeat split; reflexivity.
Qed.

(** C8, as the code has it: a shooting star starts 20 pixels outside the
    top, the left or the right side of the screen ([y = -20], [x = -20] or
    [x = width + 20]) with the other coordinate drawn from a quarter before
    to a quarter after that side, its velocity drawn from the ranges of that
    side and pointing into the screen, and its lifetime drawn from 80 to
    160 frames; every update then adds the same [(vx, vy)] to its
    position. *)
Theorem shooting_star_spawn_and_motion (width height : Q) (k n : nat) :
  0 <= width -> 0 <= height ->
  let s := fst (ShootingStar.init src width height k) in
  ((ShootingStar.y s = -20 /\
    - width / 4 <= ShootingStar.x s /\ ShootingStar.x s <= width * 1.25 /\
    -6 <= ShootingStar.vx s /\ ShootingStar.vx s <= 6 /\
    6 <= ShootingStar.vy s /\ ShootingStar.vy s <= 12) \/
   (ShootingStar.x s = -20 /\
    - height / 4 <= ShootingStar.y s /\ ShootingStar.y s <= height * 1.25 /\
    6 <= ShootingStar.vx s /\ ShootingStar.vx s <= 12 /\
    -3 <= ShootingStar.vy s /\ ShootingStar.vy s <= 3) \/
   (ShootingStar.x s = width + 20 /\
    - height / 4 <= ShootingStar.y s /\ ShootingStar.y s <= height * 1.25 /\
    -12 <= ShootingStar.vx s /\ ShootingStar.vx s <= -6 /\
    -3 <= ShootingStar.vy s /\ ShootingStar.vy s <= 3)) /\
  (80 <= ShootingStar.life s <= 160)%Z /\
  ShootingStar.age s = 0%Z /\
  ShootingStar.x (updates n s) ==
    ShootingStar.x s + inject_Z (Z.of_nat n) * ShootingStar.vx s /\
  ShootingStar.y (updates n s) ==
    ShootingStar.y s + inject_Z (Z.of_nat n) * ShootingStar.vy s /\
  ShootingStar.vx (updates n s) = ShootingStar.vx s /\
  ShootingStar.vy (updates n s) = ShootingStar.vy s.
Proof.
  intros Hw Hh s.
  assert (U : forall a b j, a <= b ->
            a <= a + (b - a) * Random.unit_draw src j /\
            a + (b - a) * Random.unit_draw src j <= b).
  { intros a b j Hab. now apply uniform_range. }
  pose proof (init_fields width height k) as F. fold s in F.
  destruct F as (Fedge & Flife & Fage).
  split; [| split; [| split]].
  - destruct (spawn_edge src k); destruct Fedge as (Ex & Ey & Evx & Evy);
      [left | right; left | right; right];
      rewrite Ex, Ey, Evx, Evy; (split; [reflexivity |]).
    + destruct (U (- width / 4) (width * 1.25) (1 + k)%nat ltac:(qlit; lra)).
      destruct (U (-6) 6 (2 + k)%nat ltac:(lra)).
      destruct (U 6 12 (3 + k)%nat ltac:(lra)).
      repeat split; assumption.
    + destruct (U (- height / 4) (height * 1.25) (1 + k)%nat ltac:(qlit; lra)).
      destruct (U 6 12 (2 + k)%nat ltac:(lra)).
      destruct (U (-3) 3 (3 + k)%nat ltac:(lra)).
      repeat split; assumption.
    + destruct (U (- height / 4) (height * 1.25) (1 + k)%nat ltac:(qlit; lra)).
      destruct (U (-12) (-6) (2 + k)%nat ltac:(lra)).
      destruct (U (-3) 3 (3 + k)%nat ltac:(lra)).
      repeat split; assumption.
  - rewrite Flife. destruct Hsrc as [_ Hb].
    pose proof (Hb (4 + k)%nat 81%Z ltac:(lia)). lia.
  - exact Fage.
  - destruct (updates_line n s) as (Hx & Hy & Hvx & Hvy & _ & _).
    repeat split; assumption.
Qed.
End ShootingStarFacts.

(** ** The collection of shooting stars *)

Lemma remove_In (r x : nat) (l : list nat) :
  NoDup l -> (In x (Py.remove r l) <-> In x l /\ x <> r).
Proof.
  induction l as [| a l IH]; intros Hnd; cbn [Py.remove].
  - cbn. tauto.
  - inversion Hnd as [| ? ? Ha Hl]; subst.
    destruct (Nat.eqb_spec r a) as [-> | Hne].
    + cbn. split.
      * intros Hx. split; [now right |]. intros ->. contradiction.
      * intros [[-> | Hx] Hxa]; [contradiction | exact Hx].
    + cbn. rewrite (IH Hl). split.
      * intros [-> | [Hx Hxr]]; [split; [now left | congruence] |].
        split; [now right | exact Hxr].
      * intros [[-> | Hx] Hxr]; [now left | right; now split].
Qed.

Lemma remove_NoDup (r : nat) (l : list nat) : NoDup l -> NoDup (Py.remove r l).
Proof.
  induction l as [| a l IH]; intros Hnd; cbn [Py.remove]; [constructor |].
  inversion Hnd as [| ? ? Ha Hl]; subst.
  destruct (Nat.eqb r a); [exact Hl |].
  constructor; [| now apply IH].
  rewrite (remove_In r a l Hl). tauto.
Qed.

Lemma store_same (r : nat) (s : ShootingStar.t) hp : Main.store r s hp r = Some s.
Proof. unfold Main.store. now rewrite Nat.eqb_refl. Qed.

Lemma store_other (r r' : nat) (s : ShootingStar.t) hp :
  r <> r' -> Main.store r s hp r' = hp r'.
Proof.
  intros H. unfold Main.store. destruct (Nat.eqb_spec r r'); [contradiction | reflexivity].
Qed.

Lemma shooting_loop_spec (snapshot : list nat) :
  forall sky,
    NoDup snapshot -> NoDup (Main.shooting sky) ->
    let sky' := fst (Main.shooting_loop snapshot sky) in
    NoDup (Main.shooting sky') /\
    Main.next_ref sky' = Main.next_ref sky /\
    (forall r, ~ In r snapshot -> Main.heap sky' r = Main.heap sky r) /\
    (forall r s, In r snapshot -> Main.heap sky r = Some s ->
                 Main.heap sky' r = Some (fst (ShootingStar.update s))) /\
    (forall r, In r (Main.shooting sky') <->
               In r (Main.shooting sky) /\
               ~ (In r snapshot /\ expires (Main.heap sky) r)).
Proof.
  induction snapshot as [| r0 rest IH]; intros sky Hsnap Hnd.
  - cbn. repeat split; try assumption; tauto.
  - inversion Hsnap as [| ? ? Hr0 Hrest]; subst.
    cbn [Main.shooting_loop].
    destruct (Main.heap sky r0) as [s0 |] eqn:E0.
    + destruct (ShootingStar.update s0) as [s0' alive] eqn:Eu.
      set (hp := Main.store r0 s0' (Main.heap sky)).
      assert (Hhp : forall r, r <> r0 -> hp r = Main.heap sky r).
      { intros r Hr. apply store_other. congruence. }
      assert (Hexp : forall r, r <> r0 ->
                (expires hp r <-> expires (Main.heap sky) r)).
      { intros r Hr. unfold expires. now rewrite (Hhp r Hr). }
      destruct alive; cbn [negb].
      * (* still alive: only the heap changes *)
        set (sky1 := {| Main.heap := hp; Main.shooting := Main.shooting sky;
                        Main.next_ref := Main.next_ref sky |}).
        destruct (IH sky1 Hrest Hnd) as (I1 & I2 & I3 & I4 & I5).
        destruct (Main.shooting_loop rest sky1) as [sky' cmds].
        cbn [fst] in *. cbn [Main.heap Main.shooting Main.next_ref sky1] in *.
        split; [exact I1 |]. split; [exact I2 |]. split; [| split].
        -- intros r Hr. rewrite I3 by (intros Hin; apply Hr; now right).
           apply Hhp. intros ->. apply Hr. now left.
        -- intros r s [<- | Hin] Hs.
           ++ rewrite I3 by exact Hr0. unfold hp. rewrite store_same.
              rewrite E0 in Hs. inversion Hs; subst. now rewrite Eu.
           ++ apply I4; [exact Hin |]. rewrite Hhp; [exact Hs |].
              intros ->. contradiction.
        -- intros r. rewrite I5. split; intros [Hin Hno]; (split; [exact Hin |]).
           ++ intros [[<- | Hr] Hex].
              ** destruct Hex as (s & Hs & Hd). rewrite E0 in Hs.
                 inversion Hs; subst. rewrite Eu in Hd. discriminate.
              ** apply Hno. split; [exact Hr |]. apply Hexp; [| exact Hex].
                 intros ->. contradiction.
           ++ intros [Hr Hex]. apply Hno. split; [now right |].
              apply (Hexp r); [| exact Hex]. intros ->. contradiction.
      * (* expired: removed from the list *)
        set (sky1 := {| Main.heap := hp;
                        Main.shooting := Py.remove r0 (Main.shooting sky);
                        Main.next_ref := Main.next_ref sky |}).
        destruct (IH sky1 Hrest (remove_NoDup r0 _ Hnd)) as (I1 & I2 & I3 & I4 & I5).
        cbn [Main.heap Main.shooting Main.next_ref sky1] in *.
        split; [exact I1 |]. split; [exact I2 |]. split; [| split].
        -- intros r Hr. rewrite I3 by (intros Hin; apply Hr; now right).
           apply Hhp. intros ->. apply Hr. now left.
        -- intros r s [<- | Hin] Hs.
           ++ rewrite I3 by exact Hr0. unfold hp. rewrite store_same.
              rewrite E0 in Hs. inversion Hs; subst. now rewrite Eu.
           ++ apply I4; [exact Hin |]. rewrite Hhp; [exact Hs |].
              intros ->. contradiction.
        -- intros r. rewrite I5, (remove_In r0 r _ Hnd).
           split.
           ++ intros [[Hin Hne] Hno]. split; [exact Hin |].
              intros [[<- | Hr] Hex]; [congruence |].
              apply Hno. split; [exact Hr |]. now apply Hexp.
           ++ intros [Hin Hno].
              assert (Hne : r <> r0).
              { intros ->. apply Hno. split; [now left |].
                exists s0. split; [exact E0 | now rewrite Eu]. }
              split; [now split |]. intros [Hr Hex]. apply Hno.
              split; [now right |]. now apply (Hexp r).
    + destruct (IH sky Hrest Hnd) as (I1 & I2 & I3 & I4 & I5).
      split; [exact I1 |]. split; [exact I2 |]. split; [| split].
      * intros r Hr. apply I3. intros Hin. apply Hr. now right.
      * intros r s [<- | Hin] Hs; [congruence | now apply I4].
      * intros r. rewrite I5. split; intros [Hin Hno]; (split; [exact Hin |]).
        -- intros [[<- | Hr] Hex]; [| apply Hno; now split].
           destruct Hex as (s & Hs & _). congruence.
        -- intros [Hr Hex]. apply Hno. split; [now right | exact Hex].
Qed.

Section ShootingFrames.
Variable src : Random.Source.

Lemma spawn_spec (sky : Main.Sky) (k : nat) :
  sky_ok sky ->
  let sky1 := fst (Main.spawn src sky k) in
  sky_ok sky1 /\
  (Main.next_ref sky <= Main.next_ref sky1)%nat /\
  (forall r, (r < Main.next_ref sky)%nat ->
     Main.heap sky1 r = Main.heap sky r /\
     (In r (Main.shooting sky1) <-> In r (Main.shooting sky))).
Proof.
  intros [Hnd Hlt]. unfold sky_ok, Main.spawn, Random.bind, Random.random.
  destruct (Py.Qltb (Random.unit_draw src k) SHOOTING_STAR_PROB).
  - destruct (ShootingStar.init src WIDTH HEIGHT (S k)) as [s k2].
    cbn [fst Random.ret Main.append_new Main.heap Main.shooting Main.next_ref].
    split; [split |]; [| | split].
    + apply NoDup_app; [exact Hnd | repeat constructor; intros [] |].
      intros r Hr [<- | []]. apply Hlt in Hr. lia.
    + intros r Hr. apply in_app_or in Hr. destruct Hr as [Hr | [<- | []]].
      * apply Hlt in Hr. lia.
      * lia.
    + lia.
    + intros r Hr. split.
      * apply store_other. lia.
      * rewrite in_app_iff. cbn. split; [| tauto].
        intros [H | [H | []]]; [exact H | lia].
  - cbn [fst Random.ret]. split; [now split |]. split; [lia |].
    intros r _. tauto.
Qed.

Lemma frame_spec (sky : Main.Sky) (k : nat) :
  sky_ok sky ->
  let sky' := fst (fst (Main.shooting_frame src sky k)) in
  sky_ok sky' /\
  (Main.next_ref sky <= Main.next_ref sky')%nat /\
  (forall r s, In r (Main.shooting sky) -> Main.heap sky r = Some s ->
     Main.heap sky' r = Some (fst (ShootingStar.update s)) /\
     (In r (Main.shooting sky') <-> snd (ShootingStar.update s) = true)) /\
  (forall r, (r < Main.next_ref sky)%nat -> ~ In r (Main.shooting sky) ->
     Main.heap sky' r = Main.heap sky r /\ ~ In r (Main.shooting sky')).
Proof.
  intros Hok. pose proof (spawn_spec sky k Hok) as S1.
  unfold Main.shooting_frame, Random.bind.
  destruct (Main.spawn src sky k) as [sky1 k1]. cbn [fst Random.ret] in *.
  destruct S1 as ([Hnd1 Hlt1] & Hnext & Hold).
  destruct (shooting_loop_spec (Main.shooting sky1) sky1 Hnd1 Hnd1)
    as (I1 & I2 & I3 & I4 & I5).
  set (sky' := fst (Main.shooting_loop (Main.shooting sky1) sky1)) in *.
  split; [split |]; [exact I1 | | split; [| split]].
  - intros r Hr. rewrite I2. apply Hlt1. now apply I5 in Hr.
  - rewrite I2. exact Hnext.
  - intros r s Hin Hs.
    assert (Hr : (r < Main.next_ref sky)%nat) by now apply Hok.
    destruct (Hold r Hr) as [Hh Hm].
    assert (Hin1 : In r (Main.shooting sky1)) by now apply Hm.
    split; [apply I4; [exact Hin1 | now rewrite Hh] |].
    rewrite I5. split.
    + intros [_ Hno]. destruct (snd (ShootingStar.update s)) eqn:E; [reflexivity |].
      exfalso. apply Hno. split; [exact Hin1 |].
      exists s. split; [now rewrite Hh | exact E].
    + intros E. split; [exact Hin1 |]. intros [_ (s1 & Hs1 & Hd)].
      rewrite Hh, Hs in Hs1. inversion Hs1; subst. congruence.
  - intros r Hr Hout. destruct (Hold r Hr) as [Hh Hm].
    assert (Hout1 : ~ In r (Main.shooting sky1)) by now rewrite Hm.
    split; [now rewrite I3 |]. rewrite I5. tauto.
Qed.

Lemma frames_step (n : nat) (sky : Main.Sky) (k : nat) :
  Main.shooting_frames src (S n) sky k =
    Main.shooting_frames src n
      (fst (fst (Main.shooting_frame src sky k)))
      (snd (Main.shooting_frame src sky k)).
Proof.
  cbn [Main.shooting_frames].
  now destruct (Main.shooting_frame src sky k) as [[sky' cmds] k'].
Qed.

(** An object that left the list is never touched again. *)
Lemma removed_stays (n : nat) :
  forall sky k r,
    sky_ok sky -> (r < Main.next_ref sky)%nat -> ~ In r (Main.shooting sky) ->
    let sky_n := fst (Main.shooting_frames src n sky k) in
    Main.heap sky_n r = Main.heap sky r /\ ~ In r (Main.shooting sky_n).
Proof.
  induction n as [| n IH]; intros sky k r Hok Hr Hout.
  - cbn. now split.
  - rewrite frames_step.
    destruct (frame_spec sky k Hok) as (Hok' & Hnext & _ & Hgone).
    destruct (Hgone r Hr Hout) as [Hh Hout'].
    destruct (IH _ (snd (Main.shooting_frame src sky k)) r Hok'
                ltac:(lia) Hout') as [Hh' Hout''].
    cbn zeta. split; [now rewrite Hh', Hh | exact Hout''].
Qed.

(** C3: a shooting star of the collection whose age is below its lifetime
    is in the collection after [n] more frames exactly when its age plus [n]
    is still below its lifetime: every frame adds one to its age, it stays
    while the age is smaller and it is removed in the frame in which the
    age reaches the lifetime, after which the object is not touched. *)
Theorem shooting_star_removed_when_age_reaches_life
    (n : nat) (sky : Main.Sky) (k r : nat) (s : ShootingStar.t) :
  sky_ok sky ->
  In r (Main.shooting sky) ->
  Main.heap sky r = Some s ->
  (ShootingStar.age s < ShootingStar.life s)%Z ->
  let sky_n := fst (Main.shooting_frames src n sky k) in
  (In r (Main.shooting sky_n) <->
     (ShootingStar.age s + Z.of_nat n < ShootingStar.life s)%Z) /\
  exists s',
    Main.heap sky_n r = Some s' /\
    ShootingStar.age s' =
      Z.min (ShootingStar.age s + Z.of_nat n) (ShootingStar.life s) /\
    ShootingStar.life s' = ShootingStar.life s.
Proof.
  revert sky k s. induction n as [| n IH]; intros sky k s Hok Hin Hs Hage.
  - cbn. split; [split; [lia | intros _; exact Hin] |].
    exists s. repeat split; [exact Hs | lia].
  - rewrite frames_step.
    destruct (frame_spec sky k Hok) as (Hok' & Hnext & Hlive & _).
    destruct (Hlive r s Hin Hs) as [Hh Hm].
    set (sky1 := fst (fst (Main.shooting_frame src sky k))) in *.
    set (k1 := snd (Main.shooting_frame src sky k)).
    set (s1 := fst (ShootingStar.update s)) in *.
    assert (A1 : ShootingStar.age s1 = (ShootingStar.age s + 1)%Z) by reflexivity.
    assert (L1 : ShootingStar.life s1 = ShootingStar.life s) by reflexivity.
    assert (Al : snd (ShootingStar.update s) = true <->
                 (ShootingStar.age s + 1 < ShootingStar.life s)%Z).
    { cbn [ShootingStar.update snd ShootingStar.age ShootingStar.life].
      apply Z.ltb_lt. }
    rewrite Nat2Z.inj_succ.
    destruct (Z_lt_le_dec (ShootingStar.age s + 1) (ShootingStar.life s))
      as [Hlt | Hge].
    + destruct (IH sky1 k1 s1 Hok' ltac:(tauto) Hh ltac:(lia))
        as (Hiff & s' & Hs' & Ha' & Hl').
      cbn zeta. rewrite Hiff, A1, L1. split; [lia |].
      exists s'. rewrite Hs', Ha', Hl', A1, L1. repeat split; lia.
    + assert (Hout : ~ In r (Main.shooting sky1)) by (rewrite Hm, Al; lia).
      assert (Hr : (r < Main.next_ref sky1)%nat).
      { apply Hok in Hin. lia. }
      destruct (removed_stays n sky1 k1 r Hok' Hr Hout) as [Hh' Hout'].
      cbn zeta. split; [split; [tauto | lia] |].
      exists s1. rewrite Hh', Hh, A1, L1. repeat split; lia.
Qed.
End ShootingFrames.

(** ** What a frame draws *)

Lemma int_on_screen (bound : Z) (c : Q) :
  0 <= c -> c < inject_Z bound ->
  0 <= inject_Z (Py.int c) /\ inject_Z (Py.int c) < inject_Z bound.
Proof.
  intros H0 H1. rewrite (int_floor c H0). split.
  - change 0 with (inject_Z 0). rewrite <- Zle_Qle.
    rewrite <- (Qfloor_Z 0). now apply Qfloor_resp_le.
  - apply Qle_lt_trans with c; [apply Qfloor_le | exact H1].
Qed.

Lemma on_screen_true (sx sy : Q) :
  Main.on_screen sx sy = true ->
  0 <= sx /\ sx < WIDTH /\ 0 <= sy /\ sy < HEIGHT.
Proof.
  unfold Main.on_screen. rewrite !andb_true_iff.
  intros [[[H1 H2] H3] H4].
  apply Qle_bool_iff in H1, H3. apply Qltb_lt in H2, H4. tauto.
Qed.

Lemma on_screen_iff (sx sy : Q) :
  Main.on_screen sx sy = true <->
  0 <= sx /\ sx < WIDTH /\ 0 <= sy /\ sy < HEIGHT.
Proof.
  split; [apply on_screen_true |].
  intros (H1 & H2 & H3 & H4). unfold Main.on_screen.
  rewrite !andb_true_iff. repeat split.
  - now apply Qle_bool_iff.
  - now apply Qltb_lt.
  - now apply Qle_bool_iff.
  - now apply Qltb_lt.
Qed.

Lemma star_draws_guarded (v : Main.View) (star : Star.t) (sx sy sz : Q) :
  (Main.star_draws v star (sx, sy, sz) <> [] ->
     0 <= sx /\ sx < WIDTH /\ 0 <= sy /\ sy < HEIGHT) /\
  (forall c, In c (Main.star_draws v star (sx, sy, sz)) ->
     drawn_at c = (inject_Z (Py.int sx), inject_Z (Py.int sy)) /\
     Main.in_bounds (drawn_at c)).
Proof.
  unfold Main.star_draws. destruct (Main.on_screen sx sy) eqn:E.
  - apply on_screen_true in E. destruct E as (X0 & X1 & Y0 & Y1).
    split; [intros _; tauto |].
    assert (B : Main.in_bounds (inject_Z (Py.int sx), inject_Z (Py.int sy))).
    { unfold Main.in_bounds. cbn [fst snd].
      destruct (int_on_screen 1000 sx X0 X1).
      destruct (int_on_screen 700 sy Y0 Y1). tauto. }
    cbv zeta. intros c Hc. destruct (Main.trails v).
    + destruct Hc as [<- | Hc]; [now split |].
      destruct (1 <? List.length (Star.prev star))%nat; [| contradiction].
      apply in_map_iff in Hc. destruct Hc as (i & <- & _).
      destruct (nth i (Star.prev star) (0, 0, 0)) as [[px py] pz]. now split.
    + destruct Hc as [<- | []]. now split.
  - split; [intros H; now contradiction H | intros c []].
Qed.

Lemma star_draws_on_screen (v : Main.View) (star : Star.t) (sx sy sz : Q) :
  0 <= sx /\ sx < WIDTH /\ 0 <= sy /\ sy < HEIGHT ->
  Main.star_draws v star (sx, sy, sz) <> [].
Proof.
  intros H. apply on_screen_iff in H. unfold Main.star_draws. rewrite H.
  cbv zeta. destruct (Main.trails v); discriminate.
Qed.

Section FrameFacts.
Variable src : Random.Source.
Variables cos sin : Q -> Q.
Hypothesis Hsrc : Random.sound src.

(** [update] completes, and the point it returns is the projection of the
    star it leaves, which is also the newest entry of that star's history. *)
Lemma update_projects (s : Star.t) (speed offset_x offset_y rotation spiral : Q)
                      (k : nat) :
  1.5 < Star.w s ->
  exists s' k',
    Star.update src cos sin s speed offset_x offset_y rotation spiral k =
      (Some (s', projected s' offset_x offset_y), k') /\
    hd_error (Star.prev s') = Some (projected s' offset_x offset_y).
Proof.
  intros Hw. destruct (Qlt_le_dec 0.9 (Star.z s - speed)) as [H | H].
  - pose proof (update_far src cos sin s speed offset_x offset_y rotation spiral k H)
      as E.
    cbv zeta in E.
    exists (Star.set_prev (advanced cos sin s speed rotation spiral)
              (trimmed (projected (advanced cos sin s speed rotation spiral)
                          offset_x offset_y) (Star.prev s))), k.
    split; [exact E |].
    unfold trimmed. cbn [Star.prev Star.set_prev].
    destruct (Star.prev s) as [| q old]; [reflexivity |].
    destruct (TRAIL_LENGTH <? _)%nat; reflexivity.
  - pose proof (update_near src cos sin Hsrc s speed offset_x offset_y rotation spiral
                  k H Hw) as E.
    cbv zeta in E.
    exists (Star.set_prev (respawned src s k)
              [projected (respawned src s k) offset_x offset_y]), (6 + k)%nat.
    split; [exact E | reflexivity].
Qed.

(** C2, as the code has it: the body of the star loop completes; it calls
    [star.update] once, with the speed of lines 313-317, the steering offsets
    and the damped rotation and spiral, and the point in question is the one
    that call returns: the projection [(sx, sy)] of the updated star, the
    newest entry of its history.  Draw calls for the star are issued exactly
    when [0 <= sx < WIDTH] and [0 <= sy < HEIGHT]; the position those calls
    draw at, the centre of the circle and the end of every trail line, is
    [(int(sx), int(sy))] and lies in the same range.  Nothing is said of
    where a trail line starts nor of the shooting stars. *)
Theorem star_drawn_only_when_projected_on_screen
    (v : Main.View) (star : Star.t) (k : nat) :
  1.5 < Star.w star ->
  exists star' k',
    let base :=
      (Main.speed_base v * (1.0 + (WIDTH - Star.z star) / WIDTH * 4.0))
      * Main.speed_mult v in
    let speed :=
      if Main.audio v then
        base * (1.0 + Main.audio_level v * 0.8 * fst (Random.uniform src 0.8 1.2 k))
      else base in
    let k0 := if Main.audio v then snd (Random.uniform src 0.8 1.2 k) else k in
    let sx := screen_x star' (Main.steer_x v) in
    let sy := screen_y star' (Main.steer_y v) in
    let p := (sx, sy, Star.z star') in
    let cmds := Main.star_draws v star' p in
    Star.update src cos sin star speed (Main.steer_x v) (Main.steer_y v)
      (Main.rotation v * 0.4) (Main.spiral v * 0.6) k0 = (Some (star', p), k') /\
    hd_error (Star.prev star') = Some p /\
    Main.star_step src cos sin v star k = (Some (star', cmds), k') /\
    (cmds <> [] <-> 0 <= sx /\ sx < WIDTH /\ 0 <= sy /\ sy < HEIGHT) /\
    (forall c, In c cmds ->
       drawn_at c = (inject_Z (Py.int sx), inject_Z (Py.int sy)) /\
       Main.in_bounds (drawn_at c)).
Proof.
  intros Hw. cbv zeta.
  match goal with
  | |- exists star' k', Star.update _ _ _ _ ?speed _ _ _ _ ?k0 = _ /\ _ =>
      destruct (update_projects star speed (Main.steer_x v) (Main.steer_y v)
                  (Main.rotation v * 0.4) (Main.spiral v * 0.6) k0 Hw)
        as (star' & k' & Eu & Hh)
  end.
  exists star', k'. unfold projected in Eu, Hh.
  split; [exact Eu |]. split; [exact Hh |].
  split; [| split; [split; [apply star_draws_guarded | apply star_draws_on_screen] |
                    apply star_draws_guarded]].
  unfold Main.star_step. destruct (Main.audio v);
    cbv [Random.bind Random.uniform Random.random Random.ret fst snd] in Eu |- *;
    rewrite Eu; reflexivity.
Qed.
End FrameFacts.

(** ** The concrete runs *)

Lemma half_sound : Random.sound Scenario.half.
Proof.
  split.
  - intros k. cbn. lra.
  - intros k n Hn. cbn. lia.
Qed.

Lemma zeros_sound : Random.sound Scenario.zeros.
Proof.
  split.
  - intros k. cbn. lra.
  - intros k n Hn. cbn. destruct (Z.ltb_spec 1 n); lia.
Qed.

Lemma sky1_ok : sky_ok Scenario.sky1.
Proof.
  split.
  - vm_compute. repeat constructor. intros [].
  - intros r Hr. vm_compute in Hr. destruct Hr as [<- | []]. vm_compute. lia.
Qed.

Lemma update_keeps_z_beyond_near_plane_witness :
  Random.sound Scenario.half /\
  1.5 < Star.w Scenario.near_star /\
  exists s' p k',
    Star.update Scenario.half Scenario.flat_cos Scenario.flat_sin
      Scenario.near_star 0.8 0 0 0 0 0%nat = (Some (s', p), k') /\
    0.9 < Star.z s' /\
    WIDTH * 0.6 <= Star.z s' /\ Star.z s' <= WIDTH.
Proof.
  split; [exact half_sound |]. split; [reflexivity |].
  destruct (update_keeps_z_beyond_near_plane Scenario.half Scenario.flat_cos
              Scenario.flat_sin half_sound Scenario.near_star 0.8 0 0 0 0 0%nat
              eq_refl)
    as (s' & p & k' & E & Hz & Hnear & _).
  exists s', p, k'. split; [exact E |]. split; [exact Hz |].
  apply Hnear. discriminate.
Defined.

Lemma update_trail_bounded_witness :
  Random.sound Scenario.half /\
  1.5 < Star.w Scenario.near_star /\
  (List.length (Star.prev Scenario.near_star) <= TRAIL_LENGTH)%nat /\
  exists s' p k',
    Star.update Scenario.half Scenario.flat_cos Scenario.flat_sin
      Scenario.near_star 0.8 0 0 0 0 0%nat = (Some (s', p), k') /\
    hd_error (Star.prev s') = Some p /\
    (List.length (Star.prev s') <= TRAIL_LENGTH)%nat /\
    Star.prev s' = [p].
Proof.
  split; [exact half_sound |]. split; [reflexivity |].
  assert (Hlen : (List.length (Star.prev Scenario.near_star) <= TRAIL_LENGTH)%nat).
  { unfold TRAIL_LENGTH. cbn. lia. }
  split; [exact Hlen |].
  destruct (update_trail_bounded Scenario.half Scenario.flat_cos
              Scenario.flat_sin half_sound Scenario.near_star 0.8 0 0 0 0 0%nat
              eq_refl Hlen)
    as (s' & p & k' & E & Hhd & Hl & _ & Hnear).
  exists s', p, k'. split; [exact E |]. split; [exact Hhd |].
  split; [exact Hl |]. apply Hnear. discriminate.
Defined.

(** C5 as stated fails where the star is respawned: the history held two
    points, and after the update it holds the new point alone, not the new
    point followed by the old history or by the old history less its oldest
    entry. *)
Lemma respawn_drops_whole_trail :
  exists s' p k',
    Star.update Scenario.half Scenario.flat_cos Scenario.flat_sin
      Scenario.near_star 0.8 0 0 0 0 0%nat = (Some (s', p), k') /\
    Star.prev Scenario.near_star = [(900, 600, 1.8); (800, 550, 2.6)] /\
    Star.prev s' = [p] /\
    ~ (Star.prev s' = p :: Star.prev Scenario.near_star \/
       Star.prev s' = p :: removelast (Star.prev Scenario.near_star)).
Proof.
  eexists _, _, _. split.
  - apply (update_near Scenario.half Scenario.flat_cos Scenario.flat_sin half_sound);
      [discriminate | reflexivity].
  - split; [reflexivity |]. split; [reflexivity |].
    cbn [Star.prev Star.set_prev Scenario.near_star removelast].
    intros [H | H]; discriminate H.
Qed.

Lemma star_drawn_only_when_projected_on_screen_witness :
  Random.sound Scenario.half /\
  1.5 < Star.w Sample.mid_star /\
  exists star' k',
    Main.star_step Scenario.half Scenario.flat_cos Scenario.flat_sin
      (Scenario.view 0) Sample.mid_star 0%nat =
      (Some (star', Main.star_draws (Scenario.view 0) star'
                      (screen_x star' 0, screen_y star' 0, Star.z star')), k') /\
    Star.z star' == 497.6 /\
    hd_error (Star.prev star') = Some (screen_x star' 0, screen_y star' 0, Star.z star') /\
    Main.star_draws (Scenario.view 0) star'
      (screen_x star' 0, screen_y star' 0, Star.z star') <> [] /\
    (forall c,
       In c (Main.star_draws (Scenario.view 0) star'
               (screen_x star' 0, screen_y star' 0, Star.z star')) ->
       drawn_at c = (600, 385) /\ Main.in_bounds (drawn_at c)).
Proof.
  split; [exact half_sound |]. split; [reflexivity |].
  destruct (star_drawn_only_when_projected_on_screen Scenario.half
              Scenario.flat_cos Scenario.flat_sin half_sound
              (Scenario.view 0) Sample.mid_star 0%nat eq_refl)
    as (star' & k' & Eu & Hh & Es & Hd & Hall).
  cbv zeta in *.
  assert (Ez : Star.z star' == 497.6 /\
               Py.int (screen_x star' 0) = 600%Z /\
               Py.int (screen_y star' 0) = 385%Z).
  { rewrite (update_far Scenario.half Scenario.flat_cos Scenario.flat_sin)
      in Eu by (vm_compute; reflexivity).
    injection Eu as <- _ _. vm_compute. repeat split; reflexivity. }
  destruct Ez as (Ez & Ex & Ey).
  exists star', k'. split; [exact Es |]. split; [exact Ez |].
  split; [exact Hh |].
  split.
  - apply Hd.
    rewrite (update_far Scenario.half Scenario.flat_cos Scenario.flat_sin)
      in Eu by (vm_compute; reflexivity).
    injection Eu as <- _ _. vm_compute. repeat split; congruence.
  - intros c Hc. destruct (Hall c Hc) as [Hat Hin].
    split; [| exact Hin]. rewrite Hat.
    change ((inject_Z (Py.int (screen_x star' 0)),
             inject_Z (Py.int (screen_y star' 0))) = (600, 385)).
    rewrite Ex, Ey. reflexivity.
Defined.

(** C2 as stated fails twice.  A star left of the screen in one frame is on
    the screen in the next, after the right arrow moved the view by 4 pixels:
    its trail line starts at the earlier point, (-2, 350).  And a shooting
    star is drawn from its first frame on, while it is still outside the
    screen: here at (-14, -178). *)
Lemma draws_reach_outside_screen :
  Scenario.draws2 =
    [Draw.circle Draw.trail_surf [123; 153; 213; 200]%Z (0, 350) 2;
     Draw.line Draw.trail_surf [123; 153; 213; 110]%Z (-2, 350) (0, 350) 2] /\
  ~ Main.all_in_bounds Scenario.draws2 /\
  In (Draw.circle Draw.screen [255; 255; 255]%Z (-14, -178) 3)
     Scenario.streak_draws /\
  ~ Main.all_in_bounds Scenario.streak_draws.
Proof.
  assert (E : Scenario.draws2 =
    [Draw.circle Draw.trail_surf [123; 153; 213; 200]%Z (0, 350) 2;
     Draw.line Draw.trail_surf [123; 153; 213; 110]%Z (-2, 350) (0, 350) 2]).
  { vm_compute. reflexivity. }
  assert (I : In (Draw.circle Draw.screen [255; 255; 255]%Z (-14, -178) 3)
                 Scenario.streak_draws).
  { vm_compute. right. left. reflexivity. }
  split; [exact E |]. split; [| split; [exact I |]].
  - rewrite E. intros H.
    assert (B : Main.in_bounds (-2, 350)).
    { apply (H (Draw.line Draw.trail_surf [123; 153; 213; 110]%Z
                          (-2, 350) (0, 350) 2)).
      - right. left. reflexivity.
      - left. reflexivity. }
    destruct B as [B _]. cbn in B. lra.
  - intros H.
    assert (B : Main.in_bounds (-14, -178)).
    { apply (H _ _ I). left. reflexivity. }
    destruct B as [B _]. cbn in B. lra.
Qed.

Lemma shooting_star_removed_when_age_reaches_life_witness :
  sky_ok Scenario.sky1 /\
  In 0%nat (Main.shooting Scenario.sky1) /\
  (exists s, Main.heap Scenario.sky1 0%nat = Some s /\
             ShootingStar.age s = 0%Z /\ ShootingStar.life s = 81%Z) /\
  (In 0%nat (Main.shooting
               (fst (Main.shooting_frames Scenario.half 80 Scenario.sky1 0%nat))) <->
     (0 + Z.of_nat 80 < 81)%Z) /\
  (In 0%nat (Main.shooting
               (fst (Main.shooting_frames Scenario.half 81 Scenario.sky1 0%nat))) <->
     (0 + Z.of_nat 81 < 81)%Z).
Proof.
  split; [exact sky1_ok |].
  assert (Hin : In 0%nat (Main.shooting Scenario.sky1)) by (left; reflexivity).
  split; [exact Hin |].
  destruct (Main.heap Scenario.sky1 0%nat) as [s |] eqn:Hs; [| discriminate Hs].
  assert (Ha : ShootingStar.age s = 0%Z).
  { vm_compute in Hs. injection Hs as <-. reflexivity. }
  assert (Hl : ShootingStar.life s = 81%Z).
  { vm_compute in Hs. injection Hs as <-. reflexivity. }
  split; [exists s; now repeat split |].
  assert (Hlt : (ShootingStar.age s < ShootingStar.life s)%Z)
    by (rewrite Ha, Hl; reflexivity).
  split.
  - destruct (shooting_star_removed_when_age_reaches_life Scenario.half 80
                Scenario.sky1 0%nat 0%nat s sky1_ok Hin Hs Hlt) as [Hiff _].
    rewrite Ha, Hl in Hiff. exact Hiff.
  - destruct (shooting_star_removed_when_age_reaches_life Scenario.half 81
                Scenario.sky1 0%nat 0%nat s sky1_ok Hin Hs Hlt) as [Hiff _].
    rewrite Ha, Hl in Hiff. exact Hiff.
Defined.

Lemma color_gradient_clamped_continuous_monotonic_witness :
  color_gradient (-3) = (80, 120, 200)%Z /\
  color_gradient 7 = (255, 100, 40)%Z /\
  (red (color_gradient 0.1) <= red (color_gradient 0.2))%Z /\
  (green (color_gradient 0.6) <= green (color_gradient 0.4))%Z /\
  (blue (color_gradient 0.9) <= blue (color_gradient 0.7))%Z /\
  color_gradient 0.5 = white_to_yellow 0.5 /\
  inject_Z (blue (color_gradient 0.32) - blue (color_gradient 0.34))
    <= 531 * (0.34 - 0.32) + 1.
Proof.
  destruct color_gradient_clamped_continuous_monotonic
    as (Hlo & Hhi & _ & Hfirst & Hsecond & Hthird & (_ & Hmid & _) & Hjump).
  split; [apply Hlo; discriminate |].
  split; [apply Hhi; discriminate |].
  split; [apply (Hfirst 0.1 0.2); [discriminate | reflexivity] |].
  split; [apply (Hsecond 0.4 0.6); [discriminate | discriminate | reflexivity] |].
  split; [apply (Hthird 0.7 0.9); discriminate |].
  split; [apply (Hmid 0.5); [discriminate | reflexivity] |].
  destruct (Hjump 0.32 0.34 ltac:(discriminate)) as (_ & _ & _ & Hb).
  exact Hb.
Defined.

Lemma trails_toggle_off_clears_trail_surface_witness :
  Main.trails_enabled Scenario.modes0 = true /\
  Main.trail_pixels Scenario.modes0 =
    [(255, 255, 255, 200); (123, 153, 213, 110)]%Z /\
  Main.trail_pixels
    (Main.handle_event false (Main.KEYDOWN Main.K_t) Scenario.modes0) =
    [(0, 0, 0, 0); (0, 0, 0, 0)]%Z /\
  Forall (fun px => px = (0, 0, 0, 0)%Z)
    (Main.trail_pixels
       (Main.handle_event false (Main.KEYDOWN Main.K_t) Scenario.modes0)).
Proof.
  split; [reflexivity |]. split; [reflexivity |]. split; [reflexivity |].
  apply (trails_toggle_off_clears_trail_surface false Scenario.modes0 eq_refl).
Defined.

Lemma shooting_star_spawn_and_motion_witness :
  Random.sound Scenario.zeros /\
  0 <= WIDTH /\ 0 <= HEIGHT /\
  let s := fst (ShootingStar.init Scenario.zeros WIDTH HEIGHT 0%nat) in
  (80 <= ShootingStar.life s <= 160)%Z /\
  ShootingStar.age s = 0%Z /\
  ShootingStar.x (updates 5 s) ==
    ShootingStar.x s + inject_Z (Z.of_nat 5) * ShootingStar.vx s.
Proof.
  split; [exact zeros_sound |]. split; [discriminate |]. split; [discriminate |].
  destruct (shooting_star_spawn_and_motion Scenario.zeros zeros_sound
              WIDTH HEIGHT 0%nat 5%nat ltac:(discriminate) ltac:(discriminate))
    as (_ & Hlife & Hage & Hx & _).
  cbv zeta. split; [exact Hlife |]. split; [exact Hage | exact Hx].
Defined.

(** C8 as stated fails at the spawn: the star that spawns at the top starts
    at (500, -20), above the screen and on none of its edges; the one that
    spawns on the left starts at (-20, -175). *)
Lemma shooting_star_spawns_outside_screen :
  let top := fst (ShootingStar.init Scenario.half WIDTH HEIGHT 0%nat) in
  let left := fst (ShootingStar.init Scenario.zeros WIDTH HEIGHT 0%nat) in
  ShootingStar.x top == 500 /\ ShootingStar.y top == -20 /\
  ~ on_screen_edge WIDTH HEIGHT (ShootingStar.x top) (ShootingStar.y top) /\
  ShootingStar.x left == -20 /\ ShootingStar.y left == -175 /\
  ~ on_screen_edge WIDTH HEIGHT (ShootingStar.x left) (ShootingStar.y left).
Proof.
  cbv zeta. split; [reflexivity |]. split; [reflexivity |].
  split; [| split; [reflexivity |]; split; [reflexivity |]].
  - unfold on_screen_edge. vm_compute. intuition discriminate.
  - unfold on_screen_edge. vm_compute. intuition discriminate.
Qed.

(** * Further properties of the code *)

(** ** Helpers *)

(** [clamp] keeps its result between the bounds, returns a value that is
    already between them, saturates outside, and with the bounds the wrong
    way round returns the lower one. *)
Theorem clamp_spec (v a b : Q) :
  (a <= b ->
     (a <= clamp v a b /\ clamp v a b <= b) /\
     (a <= v -> v <= b -> clamp v a b == v) /\
     (v <= a -> clamp v a b == a) /\
     (b <= v -> clamp v a b == b)) /\
  (b < a -> clamp v a b = a).
Proof.
  unfold clamp, Py.max, Py.min. split.
  - intros Hab. destruct (Qltb_spec v b) as [H | H].
    + destruct (Qltb_spec a v); repeat split; intros; lra.
    + destruct (Qltb_spec a b); repeat split; intros; lra.
  - intros Hba. destruct (Qltb_spec v b) as [H | H].
    + destruct (Qltb_spec a v); [lra | reflexivity].
    + destruct (Qltb_spec a b); [lra | reflexivity].
Qed.

Lemma clamp_spec_witness :
  0.0 <= 1.5 /\
  (0.0 <= clamp 0.7 0.0 1.5 /\ clamp 0.7 0.0 1.5 <= 1.5) /\
  clamp 0.7 0.0 1.5 == 0.7 /\
  clamp (-2) 0.0 1.5 == 0.0 /\
  clamp 9 0.0 1.5 == 1.5 /\
  clamp 9 1.5 0.0 = 1.5.
Proof.
  split; [discriminate |].
  destruct (clamp_spec 0.7 0.0 1.5) as [H _].
  destruct (H ltac:(discriminate)) as (Hr & Hin & _ & _).
  split; [exact Hr |]. split; [apply Hin; discriminate |].
  destruct (clamp_spec (-2) 0.0 1.5) as [Hlo _].
  destruct (Hlo ltac:(discriminate)) as (_ & _ & Hl & _).
  split; [apply Hl; discriminate |].
  destruct (clamp_spec 9 0.0 1.5) as [Hhi _].
  destruct (Hhi ltac:(discriminate)) as (_ & _ & _ & Hh).
  split; [apply Hh; discriminate |].
  destruct (clamp_spec 9 1.5 0.0) as [_ Hinv]. apply Hinv. reflexivity.
Defined.

(** [lerp] returns its first end at [t = 0]; for [t >= 0] the result lies
    on [b]'s side of [a]; it moves towards [b] as [t] grows; and for [t] in
    [[0, 1]] and ends within [[0, 255]], the range of the colour channels, it
    does not pass the second end by more than a thousandth. *)
Theorem lerp_between (a b t u : Q) :
  lerp a b 0 == a /\
  (0 <= t -> a <= b -> a <= lerp a b t) /\
  (0 <= t -> b <= a -> lerp a b t <= a) /\
  (t <= u -> a <= b -> lerp a b t <= lerp a b u) /\
  (t <= u -> b <= a -> lerp a b u <= lerp a b t) /\
  (0 <= t -> t <= 1 -> 0 <= a -> a <= b -> b <= 255 ->
     lerp a b t <= b + 0.001) /\
  (0 <= t -> t <= 1 -> 0 <= b -> b <= a -> a <= 255 ->
     b - 0.001 <= lerp a b t).
Proof.
  unfold lerp. split; [ring |].
  split; [intros; nra |]. split; [intros; nra |].
  split; [intros; nra |]. split; [intros; nra |].
  split; intros; nra.
Qed.

Lemma lerp_between_witness :
  60 <= lerp 60 255 0.5 /\
  lerp 60 255 0.25 <= lerp 60 255 0.5 /\
  lerp 60 255 0.5 <= 255 + 0.001 /\
  lerp 220 100 0.25 <= 220 /\
  lerp 220 100 0.5 <= lerp 220 100 0.25 /\
  100 - 0.001 <= lerp 220 100 0.25.
Proof.
  destruct (lerp_between 60 255 0.25 0.5) as (_ & _ & _ & Hrise & _ & _ & _).
  destruct (lerp_between 60 255 0.5 1) as (_ & Hlow & _ & _ & _ & Hcap & _).
  destruct (lerp_between 220 100 0.25 0.5) as (_ & _ & Hhigh & _ & Hfall & _ & Hfloor).
  split; [apply Hlow; discriminate |].
  split; [apply Hrise; discriminate |].
  split; [apply Hcap; discriminate |].
  split; [apply Hhigh; discriminate |].
  split; [apply Hfall; discriminate |].
  apply Hfloor; discriminate.
Defined.

(** ** Stars *)

(** A new star lies within the spread the constructor's comment gives:
    [x] in [[-w, w]], [y] in [[-h, h]], [z] in [[1, w]], the size in
    [[0.8, 3.2]], the brightness in [[0.6, 1.0]]; it has no history and is not
    a shooting star.  Five draws are used. *)
Theorem star_init_ranges (src : Random.Source) (width height : Q) (k : nat) :
  Random.sound src -> 1 <= width -> 0 <= height ->
  let s := fst (Star.init src width height k) in
  Star.w s = width /\ Star.h s = height /\
  (- width <= Star.x s /\ Star.x s <= width) /\
  (- height <= Star.y s /\ Star.y s <= height) /\
  (1 <= Star.z s /\ Star.z s <= width) /\
  (0.8 <= Star.base_size s /\ Star.base_size s <= 3.2) /\
  (0.6 <= Star.brightness s /\ Star.brightness s <= 1.0) /\
  Star.prev s = [] /\ Star.is_shooting s = false /\
  snd (Star.init src width height k) = (5 + k)%nat.
Proof.
  intros Hsrc Hw Hh s. subst s.
  split; [reflexivity |]. split; [reflexivity |].
  split; [apply (uniform_range src (- width) width k Hsrc); lra |].
  split; [apply (uniform_range src (- height) height (1 + k)%nat Hsrc); lra |].
  split; [apply (uniform_range src 1 width (2 + k)%nat Hsrc); lra |].
  split; [apply (uniform_range src 0.8 3.2 (3 + k)%nat Hsrc); lra |].
  split; [apply (uniform_range src 0.6 1.0 (4 + k)%nat Hsrc); lra |].
  repeat split; reflexivity.
Qed.

Lemma star_init_ranges_witness :
  Random.sound Scenario.half /\ 1 <= WIDTH /\ 0 <= HEIGHT /\
  let s := fst (Star.init Scenario.half WIDTH HEIGHT 0%nat) in
  (1 <= Star.z s /\ Star.z s <= WIDTH) /\
  (0.6 <= Star.brightness s /\ Star.brightness s <= 1.0).
Proof.
  split; [exact half_sound |]. split; [discriminate |]. split; [discriminate |].
  destruct (star_init_ranges Scenario.half WIDTH HEIGHT 0%nat half_sound
              ltac:(discriminate) ltac:(discriminate))
    as (_ & _ & _ & _ & Hz & _ & Hb & _).
  cbv zeta. split; assumption.
Defined.

(** The rotation and the inward scaling of [update]: when the point
    [math.cos] and [math.sin] return lies on the unit circle to within one
    part in ten million, the squared distance of [(x, y)] from the axis is
    multiplied by the square of [1 - spiral * 0.0006], to within one part in a
    million: the rotation turns the star about the axis and the spiral pulls
    it inward.  With rotation and spiral both zero the star is left as it is;
    depth and history are untouched in every case. *)
Theorem swirl_scales_radius (cos sin : Q -> Q) (s : Star.t) (rotation spiral : Q) :
  0.9999999 <= cos rotation * cos rotation + sin rotation * sin rotation ->
  cos rotation * cos rotation + sin rotation * sin rotation <= 1.0000001 ->
  let s' := Star.swirl cos sin s rotation spiral in
  let k := 1 - spiral * 0.0006 in
  let r2 := Star.x s * Star.x s + Star.y s * Star.y s in
  let r2' := Star.x s' * Star.x s' + Star.y s' * Star.y s' in
  0.999999 * (k * k * r2) <= r2' /\ r2' <= 1.000001 * (k * k * r2) /\
  (rotation == 0 -> spiral == 0 -> s' = s) /\
  Star.z s' = Star.z s /\ Star.prev s' = Star.prev s.
Proof.
  intros Hlo Hhi s' k r2 r2'.
  destruct (swirl_keeps cos sin s rotation spiral) as (Ez & _ & _ & Ep).
  assert (Hid : rotation == 0 -> spiral == 0 -> s' = s).
  { intros Hr Hs. subst s'. unfold Star.swirl.
    apply Qeq_bool_iff in Hr, Hs. rewrite Hr, Hs. reflexivity. }
  assert (Hr2 : 0 <= r2) by (subst r2; nra).
  assert (Hk : 0 <= k * k) by nra.
  assert (HP : 0 <= k * k * r2) by (apply Qmult_le_0_compat; assumption).
  set (c := cos rotation) in *. set (n := sin rotation) in *.
  assert (R : (Star.x s * c - Star.y s * n) * (Star.x s * c - Star.y s * n) +
              (Star.x s * n + Star.y s * c) * (Star.x s * n + Star.y s * c) ==
              r2 * (c * c + n * n)) by (subst r2; ring).
  assert (Hcase : r2' == k * k * r2 \/ r2' == k * k * r2 * (c * c + n * n)).
  { subst r2' s'. unfold Star.swirl. fold c n.
    destruct (Qeq_bool rotation 0) eqn:Er; destruct (Qeq_bool spiral 0) eqn:Es;
      cbn [negb Star.x Star.y Star.set_xy].
    - left. apply Qeq_bool_iff in Es. subst k r2. rewrite Es. ring.
    - left. subst k r2. ring.
    - right. apply Qeq_bool_iff in Es. subst k. rewrite R, Es. ring.
    - right. subst k.
      transitivity ((1 - spiral * 0.0006) * (1 - spiral * 0.0006) *
                    ((Star.x s * c - Star.y s * n) * (Star.x s * c - Star.y s * n) +
                     (Star.x s * n + Star.y s * c) * (Star.x s * n + Star.y s * c)));
        [ring | rewrite R; ring]. }
  split; [| split; [| split; [exact Hid | now split]]].
  - destruct Hcase as [E | E]; rewrite E; nra.
  - destruct Hcase as [E | E]; rewrite E; nra.
Qed.

Lemma swirl_scales_radius_witness :
  let s' := Star.swirl Sample.turn_cos Sample.turn_sin Scenario.far_star
              0.2 0.3 in
  let k := 1 - 0.3 * 0.0006 in
  0.9999999 <= Sample.turn_cos 0.2 * Sample.turn_cos 0.2 +
               Sample.turn_sin 0.2 * Sample.turn_sin 0.2 /\
  Sample.turn_cos 0.2 * Sample.turn_cos 0.2 +
    Sample.turn_sin 0.2 * Sample.turn_sin 0.2 <= 1.0000001 /\
  Star.x Scenario.far_star == -904 /\ Star.y Scenario.far_star == 0 /\
  Star.x s' == -542.4 * k /\ Star.y s' == -723.2 * k /\
  0.999999 * (k * k * (904 * 904)) <= Star.x s' * Star.x s' + Star.y s' * Star.y s' /\
  Star.x s' * Star.x s' + Star.y s' * Star.y s' <= 1.000001 * (k * k * (904 * 904)).
Proof.
  cbv zeta.
  split; [discriminate |]. split; [discriminate |].
  split; [reflexivity |]. split; [reflexivity |].
  split; [reflexivity |]. split; [reflexivity |].
  destruct (swirl_scales_radius Sample.turn_cos Sample.turn_sin
              Scenario.far_star 0.2 0.3 ltac:(discriminate) ltac:(discriminate))
    as (Hlo & Hhi & _).
  split.
  - eapply Qle_trans; [| exact Hlo]. discriminate.
  - eapply Qle_trans; [exact Hhi |]. discriminate.
Defined.

Lemma visible_axis (c z half offset : Q) :
  0 < z -> 0 < half ->
  (0 <= c / z * half + half + offset /\ c / z * half + half + offset < 2 * half
   <->
   - (half + offset) * z <= half * c /\ half * c < (half - offset) * z).
Proof.
  intros Hz Hh.
  assert (Hc : c == c / z * z) by (field; lra).
  set (q := c / z) in *.
  assert (P : half * c == half * q * z) by (rewrite Hc at 1; ring).
  split; intros [A B]; split; nra.
Qed.

(** The perspective projection: a star of the screen's size at depth
    [z > 0] is projected (no division fails), under steering offsets within
    32 and 19 pixels.  When its point passes the on-screen test, [(x, y)]
    lies in the view cone opened by the depth and shifted by the offsets,
    widened by a thousandth of a pixel; and when [(x, y)] lies in that cone
    narrowed by a thousandth of a pixel, the point passes the test.  With no
    steering the cone is [|x| <= z] and [|y| <= z], to within that margin. *)
Theorem star_on_screen_view_cone (s : Star.t) (offset_x offset_y : Q) :
  Star.w s = WIDTH -> Star.h s = HEIGHT -> 0 < Star.z s ->
  -32 <= offset_x -> offset_x <= 32 -> -19 <= offset_y -> offset_y <= 19 ->
  exists s' sx sy,
    Star.project s offset_x offset_y = Some (s', (sx, sy, Star.z s)) /\
    (Main.on_screen sx sy = true ->
       (- (500.001 + offset_x) * Star.z s <= 500 * Star.x s /\
        500 * Star.x s <= (500.001 - offset_x) * Star.z s) /\
       (- (350.001 + offset_y) * Star.z s <= 350 * Star.y s /\
        350 * Star.y s <= (350.001 - offset_y) * Star.z s)) /\
    ((- (499.999 + offset_x) * Star.z s <= 500 * Star.x s /\
      500 * Star.x s <= (499.999 - offset_x) * Star.z s) /\
     (- (349.999 + offset_y) * Star.z s <= 350 * Star.y s /\
      350 * Star.y s <= (349.999 - offset_y) * Star.z s) ->
     Main.on_screen sx sy = true).
Proof.
  intros Hw Hh Hz _ _ _ _.
  exists (Star.set_prev s (trimmed (projected s offset_x offset_y) (Star.prev s))),
         (screen_x s offset_x), (screen_y s offset_y).
  split; [apply project_some; lra |].
  rewrite on_screen_iff. unfold screen_x, screen_y. rewrite Hw, Hh.
  pose proof (visible_axis (Star.x s) (Star.z s) 500 offset_x Hz ltac:(lra)) as X.
  pose proof (visible_axis (Star.y s) (Star.z s) 350 offset_y Hz ltac:(lra)) as Y.
  assert (E1 : WIDTH / 2 == 500) by reflexivity.
  assert (E2 : HEIGHT / 2 == 350) by reflexivity.
  assert (E3 : WIDTH == 2 * 500) by reflexivity.
  assert (E4 : HEIGHT == 2 * 350) by reflexivity.
  rewrite E1, E2, E3, E4.
  split.
  - intros (A & B & C & D).
    destruct (proj1 X (conj A B)) as [X1 X2].
    destruct (proj1 Y (conj C D)) as [Y1 Y2].
    repeat split; nra.
  - intros [[X1 X2] [Y1 Y2]].
    destruct (proj2 X) as [A B]; [split; nra |].
    destruct (proj2 Y) as [C D]; [split; nra |].
    tauto.
Qed.

Lemma star_on_screen_view_cone_witness :
  Star.w Sample.mid_star = WIDTH /\ Star.h Sample.mid_star = HEIGHT /\
  0 < Star.z Sample.mid_star /\
  (exists s' sx sy,
     Star.project Sample.mid_star 4 0 =
       Some (s', (sx, sy, Star.z Sample.mid_star)) /\
     Main.on_screen sx sy = true) /\
  (exists s' sx sy,
     Star.project Scenario.far_star 0 0 =
       Some (s', (sx, sy, Star.z Scenario.far_star)) /\
     Main.on_screen sx sy = false).
Proof.
  split; [reflexivity |]. split; [reflexivity |]. split; [reflexivity |].
  split.
  - destruct (star_on_screen_view_cone Sample.mid_star 4 0
                eq_refl eq_refl eq_refl ltac:(discriminate) ltac:(discriminate)
                ltac:(discriminate) ltac:(discriminate))
      as (s' & sx & sy & E & _ & Hin).
    exists s', sx, sy. split; [exact E |]. apply Hin.
    vm_compute. repeat split; discriminate.
  - destruct (star_on_screen_view_cone Scenario.far_star 0 0
                eq_refl eq_refl eq_refl ltac:(discriminate) ltac:(discriminate)
                ltac:(discriminate) ltac:(discriminate))
      as (s' & sx & sy & E & Hon & _).
    exists s', sx, sy. split; [exact E |].
    destruct (Main.on_screen sx sy); [| reflexivity].
    exfalso. destruct (Hon eq_refl) as [[Hx _] _]. revert Hx. vm_compute.
    intros Hx. apply Hx. reflexivity.
Defined.

Section DepthRange.
Variable src : Random.Source.
Variables cos sin : Q -> Q.
Hypothesis Hsrc : Random.sound src.

Lemma update_depth (s : Star.t) (speed offset_x offset_y rotation spiral : Q)
                   (k : nat) :
  Star.w s = WIDTH -> Star.z s <= WIDTH -> 0 <= speed ->
  exists s' p k',
    Star.update src cos sin s speed offset_x offset_y rotation spiral k =
      (Some (s', p), k') /\
    Star.w s' = WIDTH /\ Star.h s' = Star.h s /\
    0.9 < Star.z s' /\ Star.z s' <= WIDTH /\
    (Star.z s' = Star.z s - speed \/ WIDTH * 0.6 <= Star.z s').
Proof.
  intros Hw Hz Hspeed.
  assert (Hw' : 1.5 < Star.w s) by (rewrite Hw; reflexivity).
  destruct (swirl_keeps cos sin s rotation spiral) as (_ & Ew & Eh & _).
  destruct (Qlt_le_dec 0.9 (Star.z s - speed)) as [H | H].
  - eexists _, _, _. split; [apply update_far; assumption |].
    cbn [Star.w Star.h Star.z Star.set_prev advanced Star.set_z].
    rewrite Ew, Eh. split; [exact Hw |]. split; [reflexivity |].
    split; [exact H |]. split; [lra | now left].
  - eexists _, _, _. split; [apply update_near; assumption |].
    destruct (respawned_z_far src Hsrc s k ltac:(lra)) as [Z1 Z2].
    cbn [Star.w Star.h Star.z Star.set_prev respawned] in *.
    rewrite Hw in *. split; [reflexivity |]. split; [reflexivity |].
    split; [lra |]. split; [lra | right; lra].
Qed.

Lemma star_step_range (v : Main.View) (star : Star.t) (k : nat) :
  Star.w star = WIDTH -> 0.9 < Star.z star -> Star.z star <= WIDTH ->
  0 <= Main.speed_base v -> 0 <= Main.speed_mult v -> 0 <= Main.audio_level v ->
  exists star' cmds k',
    Main.star_step src cos sin v star k = (Some (star', cmds), k') /\
    Star.w star' = WIDTH /\ Star.h star' = Star.h star /\
    0.9 < Star.z star' /\ Star.z star' <= WIDTH /\
    (Star.z star' <= Star.z star - Main.speed_base v * Main.speed_mult v \/
     WIDTH * 0.6 <= Star.z star').
Proof.
  intros Hw Hz0 Hz Hb Hm Ha. unfold Main.star_step, Random.bind.
  set (s := (WIDTH - Star.z star) / WIDTH).
  assert (Hs : 0 <= s).
  { subst s. unfold WIDTH in *. qlit. lra. }
  set (speed0 := Main.speed_base v * (1.0 + s * 4.0) * Main.speed_mult v).
  assert (Hbm : 0 <= Main.speed_base v * Main.speed_mult v)
    by (apply Qmult_le_0_compat; assumption).
  assert (Hbms : 0 <= Main.speed_base v * Main.speed_mult v * s)
    by (apply Qmult_le_0_compat; assumption).
  assert (H0 : Main.speed_base v * Main.speed_mult v <= speed0).
  { subst speed0.
    setoid_replace (Main.speed_base v * (1.0 + s * 4.0) * Main.speed_mult v)
      with (Main.speed_base v * Main.speed_mult v +
            4 * (Main.speed_base v * Main.speed_mult v * s)) by ring.
    lra. }
  assert (Hrest : forall speed k0,
            Main.speed_base v * Main.speed_mult v <= speed ->
            exists star' cmds k',
              (let (a, k') :=
                 Star.update src cos sin star speed (Main.steer_x v)
                   (Main.steer_y v) (Main.rotation v * 0.4)
                   (Main.spiral v * 0.6) k0 in
               Random.ret
                 match a with
                 | Some (star', p) => Some (star', Main.star_draws v star' p)
                 | None => None
                 end k') = (Some (star', cmds), k') /\
              Star.w star' = WIDTH /\ Star.h star' = Star.h star /\
              0.9 < Star.z star' /\ Star.z star' <= WIDTH /\
              (Star.z star' <=
                 Star.z star - Main.speed_base v * Main.speed_mult v \/
               WIDTH * 0.6 <= Star.z star')).
  { intros speed k0 Hge.
    destruct (update_depth star speed (Main.steer_x v) (Main.steer_y v)
                (Main.rotation v * 0.4) (Main.spiral v * 0.6) k0 Hw Hz
                ltac:(lra))
      as (star' & p & k' & U & W' & H' & Z0 & Z1 & Zd).
    rewrite U. exists star', (Main.star_draws v star' p), k'.
    split; [reflexivity |]. repeat split; try assumption.
    destruct Zd as [Zd | Zd]; [left; rewrite Zd; lra | now right]. }
  destruct (Main.audio v).
  - destruct (uniform_range src 0.8 1.2 k Hsrc ltac:(lra)) as [R1 R2].
    unfold Random.uniform, Random.bind, Random.random.
    cbn [Random.ret]. apply Hrest.
    set (r := 0.8 + (1.2 - 0.8) * Random.unit_draw src k) in *.
    assert (0 <= Main.audio_level v * 0.8 * r) by nra.
    nra.
  - cbn [Random.ret]. apply Hrest. exact H0.
Qed.

Lemma step_speed_bounds (v : Main.View) (star : Star.t) (k : nat) :
  Star.z star <= WIDTH ->
  0 <= Main.speed_base v -> 0 <= Main.speed_mult v -> 0 <= Main.audio_level v ->
  0 <= fst (step_speed src v star k) /\
  (1 <= Main.speed_mult v -> Main.speed_base v <= fst (step_speed src v star k)).
Proof.
  intros Hz Hb Hm Ha. unfold step_speed.
  set (s := (WIDTH - Star.z star) / WIDTH).
  assert (Hs : 0 <= s).
  { subst s. unfold WIDTH in *. qlit. lra. }
  set (f := 1.0 + s * 4.0).
  assert (Hf : 1 <= f) by (subst f; lra).
  assert (Hbf : Main.speed_base v <= Main.speed_base v * f) by nra.
  assert (H0 : 0 <= Main.speed_base v * f * Main.speed_mult v).
  { apply Qmult_le_0_compat; [lra | assumption]. }
  assert (H1 : 1 <= Main.speed_mult v ->
               Main.speed_base v <= Main.speed_base v * f * Main.speed_mult v).
  { intros Hm1. assert (0 <= Main.speed_base v * f) by lra. nra. }
  destruct (Main.audio v).
  - destruct (uniform_range src 0.8 1.2 k Hsrc ltac:(lra)) as [R1 R2].
    cbv [Random.bind Random.uniform Random.random Random.ret fst snd].
    set (r := 0.8 + (1.2 - 0.8) * Random.unit_draw src k) in *.
    assert (Hg : 0 <= Main.audio_level v * 0.8 * r) by nra.
    set (g := Main.audio_level v * 0.8 * r) in *.
    set (sp := Main.speed_base v * f * Main.speed_mult v) in *.
    split; [nra |]. intros Hm1. specialize (H1 Hm1). nra.
  - cbn [Random.ret fst]. split; assumption.
Qed.

Lemma star_step_calls_update (v : Main.View) (star : Star.t) (k : nat) :
  Main.star_step src cos sin v star k =
    (let (res, k') :=
       Star.update src cos sin star (fst (step_speed src v star k))
         (Main.steer_x v) (Main.steer_y v) (Main.rotation v * 0.4)
         (Main.spiral v * 0.6) (snd (step_speed src v star k)) in
     (match res with
      | Some (star', p) => Some (star', Main.star_draws v star' p)
      | None => None
      end, k')).
Proof.
  unfold Main.star_step, step_speed. destruct (Main.audio v); reflexivity.
Qed.

(** The body of the star loop keeps every star between the near plane and
    the far end: a star of the screen's width with [0.9 < z <= WIDTH], under
    a base speed, a multiplier and an audio level that are not negative, is
    updated without error to a star with [0.9 < z <= WIDTH] again.  The
    speed of lines 313-317 is not negative, and at least the base speed when
    the multiplier is at least 1.  Either the depth less the speed is still
    beyond the near plane, and it is the new depth; or it is not, and the
    star was respawned: it is the star [reset] builds from fresh draws, at a
    depth in the far range, with the new point as its whole history. *)
Theorem star_step_keeps_depth_range (v : Main.View) (star : Star.t) (k : nat) :
  Star.w star = WIDTH -> 0.9 < Star.z star -> Star.z star <= WIDTH ->
  0 <= Main.speed_base v -> 0 <= Main.speed_mult v -> 0 <= Main.audio_level v ->
  let speed := fst (step_speed src v star k) in
  let k0 := snd (step_speed src v star k) in
  exists star' cmds k',
    Main.star_step src cos sin v star k = (Some (star', cmds), k') /\
    Star.w star' = WIDTH /\ Star.h star' = Star.h star /\
    0.9 < Star.z star' /\ Star.z star' <= WIDTH /\
    0 <= speed /\
    (1 <= Main.speed_mult v -> Main.speed_base v <= speed) /\
    ((0.9 < Star.z star - speed /\ Star.z star' = Star.z star - speed /\
      k' = k0) \/
     (Star.z star - speed <= 0.9 /\ WIDTH * 0.6 <= Star.z star' /\
      star' =
        Star.set_prev (respawned src star k0)
          [projected (respawned src star k0) (Main.steer_x v) (Main.steer_y v)] /\
      k' = (6 + k0)%nat)).
Proof.
  intros Hw Hz0 Hz Hb Hm Ha speed k0.
  destruct (step_speed_bounds v star k Hz Hb Hm Ha) as [S0 S1].
  fold speed in S0, S1.
  assert (Hw' : 1.5 < Star.w star) by (rewrite Hw; reflexivity).
  destruct (swirl_keeps cos sin star (Main.rotation v * 0.4) (Main.spiral v * 0.6))
    as (_ & Ew & Eh & _).
  rewrite star_step_calls_update. fold speed k0.
  destruct (Qlt_le_dec 0.9 (Star.z star - speed)) as [H | H].
  - rewrite (update_far src cos sin star speed _ _ _ _ k0 H).
    eexists _, _, _. split; [reflexivity |].
    cbn [Star.w Star.h Star.z Star.set_prev advanced Star.set_z].
    rewrite Ew, Eh. split; [exact Hw |]. split; [reflexivity |].
    split; [exact H |]. split; [lra |]. split; [exact S0 |].
    split; [exact S1 |]. left. repeat split. exact H.
  - rewrite (update_near src cos sin Hsrc star speed _ _ _ _ k0 H Hw').
    destruct (respawned_z_far src Hsrc star k0 ltac:(lra)) as [Z1 Z2].
    eexists _, _, _. split; [reflexivity |].
    cbn [Star.w Star.h Star.z Star.set_prev respawned] in *.
    rewrite Hw in *. split; [reflexivity |]. split; [reflexivity |].
    split; [lra |]. split; [lra |]. split; [exact S0 |].
    split; [exact S1 |]. right. split; [exact H |]. split; [lra |].
    split; reflexivity.
Qed.

Lemma stars_loop_range (v : Main.View) (stars : list Star.t) :
  0 <= Main.speed_base v -> 0 <= Main.speed_mult v -> 0 <= Main.audio_level v ->
  Forall star_in_range stars ->
  forall k,
  exists stars' cmds k',
    Main.stars_loop src cos sin v stars k = (Some (stars', cmds), k') /\
    List.length stars' = List.length stars /\
    Forall star_in_range stars'.
Proof.
  intros Hb Hm Ha. induction stars as [| star rest IH]; intros Hall k.
  - exists [], [], k. repeat split. constructor.
  - inversion Hall as [| ? ? (Hw & Hz0 & Hz) Hrest]; subst.
    destruct (star_step_range v star k Hw Hz0 Hz Hb Hm Ha)
      as (star' & cmds & k1 & E & W' & _ & Z0 & Z1 & _).
    destruct (IH Hrest k1) as (rest' & cmds' & k2 & E' & L' & F').
    exists (star' :: rest'), (cmds ++ cmds'), k2.
    cbn [Main.stars_loop]. unfold Random.bind at 1. rewrite E.
    unfold Random.bind at 1. rewrite E'.
    split; [reflexivity |]. split; [cbn; now rewrite L' |].
    constructor; [now repeat split | exact F'].
Qed.
End DepthRange.

(** ** What is drawn for a star *)

Lemma int_nonneg (q : Q) : 0 <= q -> (0 <= Py.int q)%Z.
Proof.
  intros H. rewrite (int_floor q H). rewrite <- (Qfloor_Z 0).
  now apply Qfloor_resp_le.
Qed.

Lemma valid_color_app (col : list Z) (a : Z) :
  valid_color col -> (0 <= a <= 255)%Z -> valid_color (col ++ [a]).
Proof.
  intros Hc Ha. unfold valid_color. apply Forall_app. split; [exact Hc |].
  now repeat constructor.
Qed.

(** Every draw call issued for a star receives a colour whose components,
    alpha included, lie in [[0, 255]] and a radius or line width of at least
    1, in colour mode and in grey mode, for a star whose brightness is in
    [[0, 1]]. *)
Theorem star_draws_valid_arguments (v : Main.View) (star : Star.t) (p : Point3) :
  0 <= Star.brightness star -> Star.brightness star <= 1 ->
  Forall valid_call (Main.star_draws v star p).
Proof.
  intros Hb0 Hb1. destruct p as [[sx sy] sz]. unfold Main.star_draws.
  destruct (Main.on_screen sx sy); [| constructor].
  destruct (clamp_bounds (1.0 - sz / WIDTH) 0.0 1.0 ltac:(lra)) as [D0 D1].
  set (depth_norm := clamp (1.0 - sz / WIDTH) 0.0 1.0) in *.
  cbv zeta.
  set (col := if Main.colors v then _ else _).
  assert (Hcol : valid_color col).
  { subst col. destruct (Main.colors v).
    - destruct (gradient_channels (depth_norm * Star.brightness star))
        as (R & G & B).
      unfold Main.rgb, valid_color. now repeat constructor.
    - assert (T0 : 0 <= depth_norm * Star.brightness star) by nra.
      assert (T1 : depth_norm * Star.brightness star <= 1) by nra.
      assert (V : (60 <= Py.int (lerp 60 255 (depth_norm * Star.brightness star))
                   <= 255)%Z).
      { apply int_between; [lia | |]; unfold lerp, inject_Z; lra. }
      unfold valid_color. repeat constructor; lia. }
  set (size := Z.max 1 _).
  assert (Hsize : (1 <= size)%Z) by (subst size; lia).
  destruct (Main.trails v).
  - constructor.
    + cbn. split; [apply valid_color_app; [exact Hcol | lia] | exact Hsize].
    + destruct (1 <? List.length (Star.prev star))%nat; [| constructor].
      apply Forall_forall. intros c Hc. apply in_map_iff in Hc.
      destruct Hc as (i & <- & _).
      destruct (nth i (Star.prev star) (0, 0, 0)) as [[px py] pz].
      cbn [valid_call]. split; [| lia].
      apply valid_color_app; [exact Hcol |].
      assert (A : (0 <= Py.int (180 / inject_Z
                     (Z.max 1 (Z.of_nat (List.length (Star.prev star))))))%Z).
      { apply int_nonneg. apply Qle_shift_div_l.
        - change 0 with (inject_Z 0). rewrite <- Zlt_Qlt. lia.
        - lra. }
      pose proof (Z.mul_nonneg_nonneg (Z.of_nat i) _ (Nat2Z.is_nonneg i) A).
      lia.
  - constructor; [| constructor]. cbn. split; [exact Hcol | exact Hsize].
Qed.

Lemma star_draws_valid_arguments_witness :
  0 <= Star.brightness Scenario.near_star /\
  Star.brightness Scenario.near_star <= 1 /\
  Forall valid_call
    (Main.star_draws (Scenario.view 0) Scenario.near_star (10, 20, 1.8)).
Proof.
  split; [discriminate |]. split; [discriminate |].
  apply (star_draws_valid_arguments (Scenario.view 0) Scenario.near_star
           (10, 20, 1.8)); discriminate.
Defined.

Lemma Forall2_map_seq {A B : Type} (R : A -> B -> Prop) (f : nat -> B) (d : A)
                       (l : list A) (a : nat) :
  (forall i, (i < List.length l)%nat -> R (nth i l d) (f (a + i)%nat)) ->
  Forall2 R l (map f (seq a (List.length l))).
Proof.
  revert a. induction l as [| x l IH]; intros a H; [constructor |].
  cbn [List.length seq map]. constructor.
  - specialize (H 0%nat ltac:(cbn; lia)). now rewrite Nat.add_0_r in H.
  - apply IH. intros i Hi. specialize (H (S i) ltac:(cbn; lia)).
    now rewrite Nat.add_succ_r in H.
Qed.

(** For one star a frame draws nothing when the projected point fails the
    on-screen test; with trails off exactly one circle, on the screen, at
    the pixel of the point; with trails on one circle at that pixel followed
    by lines and nothing else: one line per earlier point of the history, in
    the order of the history, each from the pixel of that point to the pixel
    of the current one, all of them on the trail surface and none on the
    screen. *)
Theorem star_draws_surface_and_count
    (v : Main.View) (star : Star.t) (sx sy sz : Q) :
  let cmds := Main.star_draws v star (sx, sy, sz) in
  let here := (inject_Z (Py.int sx), inject_Z (Py.int sy)) in
  (Main.on_screen sx sy = false -> cmds = []) /\
  (Main.on_screen sx sy = true -> Main.trails v = false ->
     exists col size, cmds = [Draw.circle Draw.screen col here size]) /\
  (Main.on_screen sx sy = true -> Main.trails v = true ->
     List.length cmds = Nat.max 1 (List.length (Star.prev star)) /\
     Forall (fun c => target c = Draw.trail_surf) cmds /\
     exists col size lines,
       cmds = Draw.circle Draw.trail_surf col here size :: lines /\
       Forall2
         (fun q c =>
            exists col' width,
              c = Draw.line Draw.trail_surf col' (pixel_of q) here width)
         (tl (Star.prev star)) lines).
Proof.
  cbv zeta. unfold Main.star_draws.
  split; [intros ->; reflexivity |]. split.
  - intros -> ->. eexists _, _. reflexivity.
  - intros -> ->. cbv zeta. split; [| split].
    + cbn [List.length].
      destruct (Nat.ltb_spec 1 (List.length (Star.prev star))).
      * rewrite length_map, length_seq. lia.
      * cbn [List.length]. lia.
    + constructor; [reflexivity |].
      destruct (1 <? List.length (Star.prev star))%nat; [| constructor].
      apply Forall_forall. intros c Hc. apply in_map_iff in Hc.
      destruct Hc as (i & <- & _).
      now destruct (nth i (Star.prev star) (0, 0, 0)) as [[px py] pz].
    + eexists _, _, _. split; [reflexivity |].
      destruct (Star.prev star) as [| q0 rest]; [constructor |].
      destruct rest as [| q1 rest]; [constructor |].
      change (1 <? List.length (q0 :: q1 :: rest))%nat with true. cbv iota.
      replace (List.length (q0 :: q1 :: rest) - 1)%nat
        with (List.length (q1 :: rest)) by (cbn [List.length]; lia).
      cbn [tl].
      apply (Forall2_map_seq _ _ (0, 0, 0) (q1 :: rest) 1%nat).
      intros i Hi. unfold Point3 in *.
      change (nth (1 + i) (q0 :: q1 :: rest) (0, 0, 0))
        with (nth i (q1 :: rest) (0, 0, 0)).
      destruct (nth i (q1 :: rest) (0, 0, 0)) as [[px py] pz].
      eexists _, _. reflexivity.
Qed.

Lemma star_draws_surface_and_count_witness :
  Main.on_screen 10 20 = true /\
  Main.trails (Scenario.view 0) = true /\
  Star.prev Scenario.near_star = [(900, 600, 1.8); (800, 550, 2.6)] /\
  exists col size col' width,
    Main.star_draws (Scenario.view 0) Scenario.near_star (10, 20, 1.8) =
      [Draw.circle Draw.trail_surf col (10, 20) size;
       Draw.line Draw.trail_surf col' (800, 550) (10, 20) width].
Proof.
  split; [reflexivity |]. split; [reflexivity |]. split; [reflexivity |].
  destruct (star_draws_surface_and_count (Scenario.view 0) Scenario.near_star
              10 20 1.8) as (_ & _ & H).
  destruct (H eq_refl eq_refl) as (_ & _ & col & size & lines & E & F).
  exists col, size.
  inversion F as [| q c qs cs (col' & width & Ec) F' Eq Ecs]; subst.
  inversion F'; subst.
  exists col', width. exact E.
Defined.

Lemma removelast_In {A : Type} (a : A) (l : list A) :
  In a (removelast l) -> In a l.
Proof.
  induction l as [| b l IH]; [intros [] |].
  cbn [removelast]. destruct l as [| c l]; [intros [] |].
  intros [<- | H]; [now left | right; now apply IH].
Qed.

Section TrailLines.
Variable src : Random.Source.
Variables cos sin : Q -> Q.
Hypothesis Hsrc : Random.sound src.

(** Every trail line drawn for a star after an update starts at the pixel of
    a point that was in the star's history before the update, and none is
    drawn in the frame the star is respawned: no streak joins the place a
    star left to the place it reappears. *)
Theorem trail_lines_start_in_history
    (v : Main.View) (s : Star.t)
    (speed offset_x offset_y rotation spiral : Q) (k : nat) :
  1.5 < Star.w s ->
  (List.length (Star.prev s) <= TRAIL_LENGTH)%nat ->
  exists s' p k',
    Star.update src cos sin s speed offset_x offset_y rotation spiral k =
      (Some (s', p), k') /\
    forall surf col start_pos end_pos width,
      In (Draw.line surf col start_pos end_pos width) (Main.star_draws v s' p) ->
      0.9 < Star.z s - speed /\
      exists q, In q (Star.prev s) /\ start_pos = pixel_of q.
Proof.
  intros Hw Hlen.
  assert (Lines : forall (s' : Star.t) (p : Point3) (old : list Point3),
            Star.prev s' = p :: old ->
            forall surf col start_pos end_pos width,
              In (Draw.line surf col start_pos end_pos width)
                 (Main.star_draws v s' p) ->
              exists q, In q old /\ start_pos = pixel_of q).
  { intros s' [[sx sy] sz] old Hp surf col st en wd Hin.
    unfold Main.star_draws in Hin. rewrite Hp in Hin.
    destruct (Main.on_screen sx sy); [| simpl in Hin; contradiction].
    cbv zeta in Hin.
    destruct (Main.trails v).
    - destruct Hin as [Hin | Hin]; [discriminate Hin |].
      match type of Hin with
      | In _ (if ?b then _ else _) => destruct b
      end; [| simpl in Hin; contradiction].
      apply in_map_iff in Hin. destruct Hin as (i & Hc & Hi).
      apply in_seq in Hi. cbn [List.length] in Hi.
      destruct i as [| i]; [lia |]. cbn [nth] in Hc.
      assert (Hq : In (nth i old (0, 0, 0)) old) by (apply nth_In; lia).
      destruct (nth i old (0, 0, 0)) as [[px py] pz] eqn:Eq.
      injection Hc as _ _ <- _ _.
      exists (px, py, pz). split; [exact Hq | reflexivity].
    - destruct Hin as [Hin | []]. discriminate Hin. }
  destruct (Qlt_le_dec 0.9 (Star.z s - speed)) as [H | H].
  - eexists _, _, _. split; [apply update_far; assumption |].
    intros surf col st en wd Hin. split; [exact H |].
    eapply Lines in Hin;
      [| cbn [Star.prev Star.set_prev]; rewrite trimmed_trail by exact Hlen;
         reflexivity].
    destruct Hin as (q & Hq & E). exists q. split; [| exact E].
    destruct (List.length (Star.prev s) <? TRAIL_LENGTH)%nat;
      [exact Hq | now apply removelast_In].
  - eexists _, _, _. split; [apply update_near; assumption |].
    intros surf col st en wd Hin. exfalso.
    eapply Lines in Hin; [| reflexivity].
    now destruct Hin as (q & [] & _).
Qed.
End TrailLines.

Lemma trail_lines_start_in_history_witness :
  Random.sound Scenario.half /\ 1.5 < Star.w Scenario.near_star /\
  (List.length (Star.prev Scenario.near_star) <= TRAIL_LENGTH)%nat /\
  exists s' p k',
    Star.update Scenario.half Scenario.flat_cos Scenario.flat_sin
      Scenario.near_star 0.8 0 0 0 0 0%nat = (Some (s', p), k') /\
    forall surf col start_pos end_pos width,
      ~ In (Draw.line surf col start_pos end_pos width)
           (Main.star_draws (Scenario.view 0) s' p).
Proof.
  split; [exact half_sound |]. split; [reflexivity |].
  assert (Hlen : (List.length (Star.prev Scenario.near_star) <= TRAIL_LENGTH)%nat).
  { unfold TRAIL_LENGTH. cbn. lia. }
  split; [exact Hlen |].
  destruct (trail_lines_start_in_history Scenario.half Scenario.flat_cos
              Scenario.flat_sin half_sound (Scenario.view 0) Scenario.near_star
              0.8 0 0 0 0 0%nat eq_refl Hlen) as (s' & p & k' & E & L).
  exists s', p, k'. split; [exact E |].
  intros surf col st en wd Hin.
  destruct (L surf col st en wd Hin) as [Hfar _].
  revert Hfar. vm_compute. discriminate.
Defined.

(** ** The frame *)

Lemma audio_influence_range (m : Main.Modes) (speed_mult : Q) :
  0 <= speed_mult ->
  let r := Main.audio_influence m speed_mult in
  (0 <= fst r /\ fst r <= 1.5) /\
  (speed_mult <= snd r /\ snd r <= 2.35 * speed_mult).
Proof.
  intros Hs. unfold Main.audio_influence.
  destruct (Main.audio_enabled m); [destruct (Main.audio_analyzer m) as [a |] |];
    cbn [fst snd]; try (split; split; lra).
  destruct (clamp_bounds (AudioAnalyzer.get_level a) 0.0 1.5 ltac:(lra)) as [L0 L1].
  set (level := clamp (AudioAnalyzer.get_level a) 0.0 1.5) in *.
  split; [split; lra |]. split; nra.
Qed.

(** The audio influence on the speed: the level used lies in [[0, 1.5]] and
    the multiplier is raised to at most 2.35 times its value and never
    lowered; with audio sync off, or without an analyzer, the level is 0.0
    and the multiplier is returned as it is. *)
Theorem audio_influence_bounds (m : Main.Modes) (speed_mult : Q) :
  (0 <= speed_mult ->
     (0 <= fst (Main.audio_influence m speed_mult) /\
      fst (Main.audio_influence m speed_mult) <= 1.5) /\
     (speed_mult <= snd (Main.audio_influence m speed_mult) /\
      snd (Main.audio_influence m speed_mult) <= 2.35 * speed_mult)) /\
  (Main.audio_enabled m = false \/ Main.audio_analyzer m = None ->
     Main.audio_influence m speed_mult = (0.0, speed_mult)).
Proof.
  split; [apply audio_influence_range |].
  unfold Main.audio_influence. intros [-> | ->]; [reflexivity |].
  now destruct (Main.audio_enabled m).
Qed.

Lemma audio_influence_bounds_witness :
  0 <= BOOST_MULT /\
  BOOST_MULT <= snd (Main.audio_influence Sample.modes_audio BOOST_MULT) /\
  snd (Main.audio_influence Sample.modes_audio BOOST_MULT) <= 2.35 * BOOST_MULT /\
  Main.audio_influence Scenario.modes0 BOOST_MULT = (0.0, BOOST_MULT).
Proof.
  split; [discriminate |].
  destruct (audio_influence_bounds Sample.modes_audio BOOST_MULT) as [H _].
  destruct (H ltac:(discriminate)) as (_ & H1 & H2).
  split; [exact H1 |]. split; [exact H2 |].
  destruct (audio_influence_bounds Scenario.modes0 BOOST_MULT) as [_ Hoff].
  apply Hoff. left. reflexivity.
Defined.

Lemma controls_view (m : Main.Modes) (keys : Loop.Keys) (ticks : Z)
                    (mo : Loop.Motion) :
  let v := snd (Loop.controls m keys ticks mo) in
  Main.speed_base v = BASE_SPEED /\
  1 <= Main.speed_mult v /\ Main.speed_mult v <= 2.35 * BOOST_MULT /\
  0 <= Main.audio_level v /\ Main.audio_level v <= 1.5.
Proof.
  unfold Loop.controls.
  destruct (Loop.sway _ _ _ _) as [rot spi].
  assert (B : 1 <= Loop.boost (Loop.K_SPACE keys) /\
              Loop.boost (Loop.K_SPACE keys) <= BOOST_MULT).
  { unfold Loop.boost, BOOST_MULT. destruct (Loop.K_SPACE keys); split; lra. }
  destruct B as [B1 B2].
  pose proof (audio_influence_range m (Loop.boost (Loop.K_SPACE keys))
                ltac:(lra)) as R.
  destruct (Main.audio_influence m (Loop.boost (Loop.K_SPACE keys)))
    as [level mult].
  cbn [fst snd] in R. destruct R as ((L0 & L1) & M0 & M1).
  cbn [snd Main.speed_base Main.speed_mult Main.audio_level].
  split; [reflexivity |]. repeat split; lra.
Qed.

Section WholeFrame.
Variable src : Random.Source.
Variables cos sin : Q -> Q.
Hypothesis Hsrc : Random.sound src.

(** The loop body never fails on stars that are in range, whatever the keys,
    the frame time, the modes and the shooting stars: no division by zero
    occurs, the number of stars is unchanged and every star is again of the
    screen's width with [0.9 < z <= WIDTH]. *)
Theorem frame_keeps_stars_in_range
    (m : Main.Modes) (keys : Loop.Keys) (ticks : Z) (mo : Loop.Motion)
    (stars : list Star.t) (sky : Main.Sky) (k : nat) :
  Forall star_in_range stars ->
  exists mo' stars' sky' cmds k',
    Loop.frame src cos sin m keys ticks mo stars sky k =
      (Some (mo', stars', sky', cmds), k') /\
    List.length stars' = List.length stars /\
    Forall star_in_range stars'.
Proof.
  intros Hall. unfold Loop.frame.
  pose proof (controls_view m keys ticks mo) as V.
  destruct (Loop.controls m keys ticks mo) as [mo' v].
  cbn [snd] in V. destruct V as (Vb & Vm0 & _ & Va & _).
  destruct (stars_loop_range src cos sin Hsrc v stars
              ltac:(rewrite Vb; discriminate) ltac:(lra) Va Hall k)
    as (stars' & cmds & k1 & E & L & F).
  unfold Random.bind, Main.render. unfold Random.bind at 1. rewrite E.
  unfold Random.bind.
  destruct (Main.shooting_frame src sky k1) as [[sky' cmds'] k2].
  exists mo', stars', sky', (cmds ++ cmds'), k2.
  split; [reflexivity |]. split; assumption.
Qed.

(** The stars built at start-up: as many as asked for, each of the screen's
    size with [1 <= z <= WIDTH], so in range for the loop, and with an empty
    history; five draws are used for each. *)
Theorem make_stars_in_range (n k : nat) :
  exists stars,
    Loop.make_stars src n k = (stars, (5 * n + k)%nat) /\
    List.length stars = n /\
    Forall star_in_range stars /\
    Forall (fun s => Star.h s = HEIGHT /\ 1 <= Star.z s /\ Star.prev s = []) stars.
Proof.
  revert k. induction n as [| n IH]; intros k.
  - exists []. repeat split; constructor.
  - destruct (uniform_range src 1 WIDTH (2 + k) Hsrc ltac:(discriminate))
      as (Hz1 & Hz2).
    destruct (IH (5 + k)%nat) as (rest & E & L & F & G).
    exists (fst (Star.init src WIDTH HEIGHT k) :: rest).
    cbn [Loop.make_stars]. unfold Random.bind at 1.
    change (Star.init src WIDTH HEIGHT k)
      with (fst (Star.init src WIDTH HEIGHT k), (5 + k)%nat).
    unfold Random.bind at 1. rewrite E. cbn [Random.ret fst].
    split; [apply f_equal2; [reflexivity | lia] |].
    split; [cbn; now rewrite L |].
    split; constructor; try assumption.
    + split; [reflexivity |].
      split; [apply Qlt_le_trans with 1; [reflexivity | exact Hz1] | exact Hz2].
    + split; [reflexivity |]. split; [exact Hz1 | reflexivity].
Qed.
End WholeFrame.

(** ** The shooting stars of a frame *)

Lemma shooting_loop_draws (snapshot : list nat) :
  forall sky,
    NoDup snapshot ->
    List.length (snd (Main.shooting_loop snapshot sky)) =
      (2 * List.length (filter (survives (Main.heap sky)) snapshot))%nat /\
    Forall (fun c => target c = Draw.screen)
      (snd (Main.shooting_loop snapshot sky)).
Proof.
  induction snapshot as [| r0 rest IH]; intros sky Hnd.
  - cbn. split; [reflexivity | constructor].
  - inversion Hnd as [| ? ? Hr0 Hrest]; subst.
    cbn [Main.shooting_loop filter]. unfold survives at 1.
    destruct (Main.heap sky r0) as [s0 |] eqn:E0; [| now apply IH].
    destruct (ShootingStar.update s0) as [s0' alive] eqn:Eu. cbn [snd].
    set (hp := Main.store r0 s0' (Main.heap sky)).
    assert (Hext : filter (survives hp) rest =
                   filter (survives (Main.heap sky)) rest).
    { apply filter_ext_in. intros r Hr. unfold survives, hp.
      rewrite store_other; [reflexivity |]. intros ->. contradiction. }
    destruct alive; cbn [negb].
    + specialize (IH {| Main.heap := hp; Main.shooting := Main.shooting sky;
                        Main.next_ref := Main.next_ref sky |} Hrest).
      cbn [Main.heap] in IH. rewrite Hext in IH.
      destruct (Main.shooting_loop rest _) as [sky' cmds].
      cbn [snd] in *. destruct IH as [IL IF]. split.
      * rewrite length_app, IL. cbn [List.length Main.streak_draws]. lia.
      * apply Forall_app. split; [| exact IF].
        repeat constructor.
    + specialize (IH {| Main.heap := hp;
                        Main.shooting := Py.remove r0 (Main.shooting sky);
                        Main.next_ref := Main.next_ref sky |} Hrest).
      cbn [Main.heap] in IH. rewrite Hext in IH. exact IH.
Qed.

Section ShootingAlive.
Variable src : Random.Source.
Hypothesis Hsrc : Random.sound src.

Lemma spawn_alive (sky : Main.Sky) (k : nat) :
  sky_alive sky ->
  sky_alive (fst (Main.spawn src sky k)) /\
  (List.length (Main.shooting (fst (Main.spawn src sky k))) <=
     List.length (Main.shooting sky) + 1)%nat.
Proof.
  intros [Hok Hall]. pose proof (spawn_spec src sky k Hok) as S1.
  cbv zeta in S1. destruct S1 as (Hok1 & _ & Hold).
  split; [split; [exact Hok1 |] |].
  - intros r Hr.
    destruct (Nat.lt_ge_cases r (Main.next_ref sky)) as [Hlt | Hge].
    + destruct (Hold r Hlt) as [Hh Hm]. rewrite Hh. apply Hall. now apply Hm.
    + revert Hr. unfold Main.spawn, Random.bind, Random.random.
      destruct (Py.Qltb (Random.unit_draw src k) SHOOTING_STAR_PROB).
      * pose proof (init_fields src WIDTH HEIGHT (S k)) as F.
        cbv zeta in F. destruct F as (_ & Fl & Fa).
        destruct (ShootingStar.init src WIDTH HEIGHT (S k)) as [s k2].
        cbn [fst Random.ret Main.append_new Main.heap Main.shooting] in *.
        intros Hr. apply in_app_or in Hr. destruct Hr as [Hr | [<- | []]].
        -- apply Hok in Hr. lia.
        -- rewrite store_same. exists s. split; [reflexivity |].
           rewrite Fl, Fa. destruct Hsrc as [_ Hb].
           pose proof (Hb (4 + S k)%nat 81%Z ltac:(lia)). lia.
      * cbn [fst Random.ret]. intros Hr. apply Hok in Hr. lia.
  - unfold Main.spawn, Random.bind, Random.random.
    destruct (Py.Qltb (Random.unit_draw src k) SHOOTING_STAR_PROB).
    + destruct (ShootingStar.init src WIDTH HEIGHT (S k)) as [s k2].
      cbn [fst Random.ret Main.append_new Main.shooting].
      rewrite length_app. cbn. lia.
    + cbn [fst Random.ret]. lia.
Qed.

(** The shooting stars of one frame: every star left in the collection has
    its object and is younger than its lifetime, so none outlives it; the
    collection grows by at most one; and the draw calls, all on the screen,
    number exactly two for each star left. *)
Theorem shooting_frame_keeps_collection_alive (sky : Main.Sky) (k : nat) :
  sky_alive sky ->
  let sky' := fst (fst (Main.shooting_frame src sky k)) in
  let cmds := snd (fst (Main.shooting_frame src sky k)) in
  sky_alive sky' /\
  (List.length (Main.shooting sky') <= List.length (Main.shooting sky) + 1)%nat /\
  List.length cmds = (2 * List.length (Main.shooting sky'))%nat /\
  Forall (fun c => target c = Draw.screen) cmds.
Proof.
  intros Halive. destruct (spawn_alive sky k Halive) as [[Hok1 Hall1] Hlen1].
  unfold Main.shooting_frame, Random.bind.
  destruct (Main.spawn src sky k) as [sky1 k1]. cbn [fst snd Random.ret] in *.
  destruct Hok1 as [Hnd1 Hlt1].
  destruct (shooting_loop_spec (Main.shooting sky1) sky1 Hnd1 Hnd1)
    as (I1 & I2 & I3 & I4 & I5).
  destruct (shooting_loop_draws (Main.shooting sky1) sky1 Hnd1) as [DL DF].
  set (sky' := fst (Main.shooting_loop (Main.shooting sky1) sky1)) in *.
  assert (Hmem : forall r, In r (Main.shooting sky') <->
                           In r (filter (survives (Main.heap sky1))
                                        (Main.shooting sky1))).
  { intros r. rewrite I5, filter_In. split.
    - intros [Hin Hno]. split; [exact Hin |].
      destruct (Hall1 r Hin) as (s & Hs & _). unfold survives. rewrite Hs.
      destruct (snd (ShootingStar.update s)) eqn:E; [reflexivity |].
      exfalso. apply Hno. split; [exact Hin |]. now exists s.
    - intros [Hin Hsv]. split; [exact Hin |].
      intros [_ (s & Hs & Hd)]. unfold survives in Hsv. rewrite Hs in Hsv.
      congruence. }
  assert (Hsame : List.length (Main.shooting sky') =
                  List.length (filter (survives (Main.heap sky1))
                                      (Main.shooting sky1))).
  { apply Nat.le_antisymm; apply NoDup_incl_length.
    - exact I1.
    - intros r Hr. now apply Hmem.
    - now apply NoDup_filter.
    - intros r Hr. now apply Hmem. }
  split; [split; [split |] |].
  - exact I1.
  - intros r Hr. rewrite I2. apply Hlt1. now apply I5 in Hr.
  - intros r Hr. apply I5 in Hr. destruct Hr as [Hin Hno].
    destruct (Hall1 r Hin) as (s & Hs & Hage).
    exists (fst (ShootingStar.update s)). split; [now apply I4 |].
    destruct (snd (ShootingStar.update s)) eqn:E.
    + cbn [ShootingStar.update snd fst ShootingStar.age ShootingStar.life] in *.
      now apply Z.ltb_lt.
    + exfalso. apply Hno. split; [exact Hin |]. now exists s.
  - split; [| split; [| exact DF]].
    + rewrite Hsame.
      pose proof (filter_length_le (survives (Main.heap sky1))
                    (Main.shooting sky1)). lia.
    + rewrite DL, Hsame. reflexivity.
Qed.
End ShootingAlive.

(** ** Events *)

Lemma handle_event_running (av : bool) (event : Main.Event) (m : Main.Modes) :
  Main.running (Main.handle_event av event m) =
    Main.running m && negb (quits event).
Proof.
  destruct event as [| key |]; [| destruct key |]; cbn;
    try (now rewrite ?andb_true_r, ?andb_false_r).
  destruct av, (Main.audio_analyzer m); cbn; now rewrite andb_true_r.
Qed.

(** The loop goes on after a queue of events exactly when it was running
    and the queue holds no quit event (close button, escape, q); a quit is
    never undone by a later event, and the events that follow it in the queue
    are still handled. *)
Theorem running_after_events
    (av : bool) (events : list Main.Event) (m : Main.Modes) :
  Main.running (Loop.handle_events av events m) =
    Main.running m && negb (existsb quits events).
Proof.
  unfold Loop.handle_events. revert m.
  induction events as [| e events IH]; intros m; cbn [fold_left existsb].
  - now rewrite andb_true_r.
  - rewrite IH, handle_event_running, negb_orb. now rewrite andb_assoc.
Qed.

(** Pressing S twice, or C twice, gives back the very same state.  Pressing
    T twice gives back the trails flag and every other field, but the
    trail surface is then cleared whichever way the flag stood. *)
Theorem toggle_twice (av : bool) (m : Main.Modes) :
  let twice key :=
    Main.handle_event av (Main.KEYDOWN key)
      (Main.handle_event av (Main.KEYDOWN key) m) in
  twice Main.K_s = m /\
  twice Main.K_c = m /\
  Main.trails_enabled (twice Main.K_t) = Main.trails_enabled m /\
  Main.trail_pixels (twice Main.K_t) =
    Main.fill (0, 0, 0, 0)%Z (Main.trail_pixels m) /\
  Main.running (twice Main.K_t) = Main.running m /\
  Main.spiral_enabled (twice Main.K_t) = Main.spiral_enabled m /\
  Main.color_mode (twice Main.K_t) = Main.color_mode m /\
  Main.audio_enabled (twice Main.K_t) = Main.audio_enabled m /\
  Main.audio_analyzer (twice Main.K_t) = Main.audio_analyzer m /\
  Main.stdout (twice Main.K_t) = Main.stdout m.
Proof.
  destruct m as [run spi tra col aud ana pix out]. cbn.
  rewrite !negb_involutive. repeat split.
  destruct tra; reflexivity.
Qed.

Lemma handle_event_analyzer (av : bool) (event : Main.Event) (m : Main.Modes) :
  Main.audio_analyzer (Main.handle_event av event m) = Main.audio_analyzer m.
Proof.
  destruct event as [| key |]; [| destruct key |]; try reflexivity.
  unfold Main.handle_event.
  destruct av; destruct (Main.audio_analyzer m) eqn:E; cbn; now rewrite ?E.
Qed.

Lemma handle_event_unavailable (av : bool) (event : Main.Event) (m : Main.Modes) :
  av = false \/ Main.audio_analyzer m = None ->
  Main.audio_enabled (Main.handle_event av event m) = Main.audio_enabled m /\
  Main.stdout (Main.handle_event av event m) =
    Main.stdout m ++
    (if audio_key event
     then ["Audio not available (requires sounddevice + numpy)."%string]
     else []).
Proof.
  intros H. destruct event as [| key |]; [| destruct key |]; cbn;
    try (now rewrite app_nil_r).
  destruct H as [-> | ->]; [| destruct av]; now split.
Qed.

Lemma events_unavailable (av : bool) (events : list Main.Event) :
  forall m,
    av = false \/ Main.audio_analyzer m = None ->
    Main.audio_enabled (Loop.handle_events av events m) = Main.audio_enabled m /\
    Main.stdout (Loop.handle_events av events m) =
      Main.stdout m ++
      map (fun _ => "Audio not available (requires sounddevice + numpy)."%string)
          (filter audio_key events).
Proof.
  unfold Loop.handle_events.
  induction events as [| e events IH]; intros m H; cbn [fold_left filter].
  - cbn. now rewrite app_nil_r.
  - destruct (handle_event_unavailable av e m H) as [Ea Eo].
    assert (H' : av = false \/
                 Main.audio_analyzer (Main.handle_event av e m) = None).
    { destruct H as [H | H]; [now left | right].
      now rewrite handle_event_analyzer. }
    destruct (IH _ H') as [Ia Io]. rewrite Ia, Io, Ea, Eo.
    split; [reflexivity |]. rewrite <- app_assoc.
    now destruct (audio_key e).
Qed.

(** Without the audio modules, or without an analyzer object, no event
    turns audio sync on or off: after any queue of events [audio_enabled] is
    what it was, and every press of A has printed the line that audio is not
    available, nothing else being printed. *)
Theorem audio_key_without_audio
    (av : bool) (events : list Main.Event) (m : Main.Modes) :
  av = false \/ Main.audio_analyzer m = None ->
  Main.audio_enabled (Loop.handle_events av events m) = Main.audio_enabled m /\
  Main.stdout (Loop.handle_events av events m) =
    Main.stdout m ++
    map (fun _ => "Audio not available (requires sounddevice + numpy)."%string)
        (filter audio_key events).
Proof. apply events_unavailable. Qed.

(** Audio sync is never on without an analyzer object: this holds for the
    state set up before the loop and is kept by every queue of events; the
    events never replace or drop the analyzer. *)
Theorem audio_enabled_needs_analyzer
    (av : bool) (c : Main.Construction) (pixels : list Main.RGBA)
    (events : list Main.Event) :
  let m := Loop.handle_events av events (Main.setup av c pixels) in
  Main.audio_analyzer m = Main.audio_analyzer (Main.setup av c pixels) /\
  (Main.audio_enabled m = true -> Main.audio_analyzer m <> None).
Proof.
  cbv zeta.
  assert (Keep : forall evs m,
            Main.audio_analyzer (Loop.handle_events av evs m) =
            Main.audio_analyzer m).
  { unfold Loop.handle_events. induction evs as [| e evs IH]; intros m.
    - reflexivity.
    - cbn [fold_left]. now rewrite IH, handle_event_analyzer. }
  split; [apply Keep |]. rewrite Keep.
  destruct (Main.audio_analyzer (Main.setup av c pixels)) as [a |] eqn:E;
    [discriminate |].
  intros Hon. exfalso.
  destruct (events_unavailable av events (Main.setup av c pixels)
              (or_intror E)) as [Ha _].
  rewrite Ha in Hon. revert E Hon. unfold Main.setup.
  destruct av; [destruct c as [| o]; [| destruct o] |]; cbn; discriminate.
Qed.

(** ** Steering, sway and audio blocks *)

Lemma steer_axis_within (gain bound d dt old : Q) :
  0 <= dt -> dt <= 0.125 -> gain <= 8 * bound -> 0 <= gain ->
  -1 <= d -> d <= 1 ->
  - bound <= old -> old <= bound ->
  - bound <= d * gain * dt + old * (1 - 8 * dt) /\
  d * gain * dt + old * (1 - 8 * dt) <= bound.
Proof.
  intros Hd0 Hd1 Hb Hg Hm1 Hp1 Ho0 Ho1.
  assert (F : 0 <= 1 - 8 * dt) by lra.
  assert (G : 0 <= gain * dt) by nra.
  assert (P1 : (bound - old) * (1 - 8 * dt) >= 0) by nra.
  assert (P2 : (old + bound) * (1 - 8 * dt) >= 0) by nra.
  assert (P3 : (1 - d) * (gain * dt) >= 0) by nra.
  assert (P4 : (d + 1) * (gain * dt) >= 0) by nra.
  assert (P5 : (8 * bound - gain) * dt >= 0) by nra.
  split; nra.
Qed.

Lemma dt_nonneg (ticks : Z) : (0 <= ticks)%Z -> 0 <= inject_Z ticks / 1000.0.
Proof.
  intros H. apply Qle_shift_div_l; [reflexivity |].
  apply Qle_trans with (inject_Z 0); [discriminate |].
  rewrite <- Zle_Qle. exact H.
Qed.

Lemma dt_short (ticks : Z) : (ticks <= 125)%Z -> inject_Z ticks / 1000.0 <= 0.125.
Proof.
  intros H. apply Qle_shift_div_r; [reflexivity |].
  apply Qle_trans with (inject_Z 125); [| discriminate].
  rewrite <- Zle_Qle. exact H.
Qed.

Lemma pressed_range (a b : bool) :
  -1 <= inject_Z (Loop.pressed a - Loop.pressed b) /\
  inject_Z (Loop.pressed a - Loop.pressed b) <= 1.
Proof. destruct a, b; cbn; split; discriminate. Qed.

(** Steering stays bounded while a frame takes at most 125 ms: from
    offsets within 32 pixels horizontally and 19 vertically, whatever arrow
    keys are held, the new offsets are within the same bounds, and they are
    the offsets the stars of the frame are projected with.  (The update
    pulls the offsets towards 31.25 and 18.75; the bounds leave room
    beyond them.) *)
Theorem controls_steering_bounded
    (m : Main.Modes) (keys : Loop.Keys) (ticks : Z) (mo : Loop.Motion) :
  (0 <= ticks <= 125)%Z ->
  -32 <= Loop.steer_x mo -> Loop.steer_x mo <= 32 ->
  -19 <= Loop.steer_y mo -> Loop.steer_y mo <= 19 ->
  let mo' := fst (Loop.controls m keys ticks mo) in
  let v := snd (Loop.controls m keys ticks mo) in
  (-32 <= Loop.steer_x mo' /\ Loop.steer_x mo' <= 32) /\
  (-19 <= Loop.steer_y mo' /\ Loop.steer_y mo' <= 19) /\
  Main.steer_x v = Loop.steer_x mo' /\ Main.steer_y v = Loop.steer_y mo'.
Proof.
  intros Ht X0 X1 Y0 Y1. unfold Loop.controls.
  destruct (Loop.sway _ _ _ _) as [rot spi].
  destruct (Main.audio_influence _ _) as [level mult].
  cbn [fst snd Loop.steer_x Loop.steer_y Main.steer_x Main.steer_y].
  set (dt := inject_Z ticks / 1000.0).
  assert (D0 : 0 <= dt) by (apply dt_nonneg; lia).
  assert (D1 : dt <= 0.125) by (apply dt_short; lia).
  destruct (pressed_range (Loop.K_RIGHT keys) (Loop.K_LEFT keys)) as [A0 A1].
  destruct (pressed_range (Loop.K_DOWN keys) (Loop.K_UP keys)) as [B0 B1].
  split; [| split; [| split; reflexivity]].
  - unfold Main.steer.
    apply (steer_axis_within 250.0 32); try assumption; discriminate.
  - unfold Loop.steer_vertical.
    apply (steer_axis_within 150.0 19); try assumption; discriminate.
Qed.

Lemma controls_steering_bounded_witness :
  (0 <= 16 <= 125)%Z /\
  -32 <= 31.5 /\ 31.5 <= 32 /\ -19 <= -18.9 /\ -18.9 <= 19 /\
  let mo := {| Loop.steer_x := 31.5; Loop.steer_y := -18.9;
               Loop.rotation := 0; Loop.spiral := 0 |} in
  let mo' := fst (Loop.controls Scenario.modes0 Sample.right_boost 16 mo) in
  Loop.steer_x mo' == 31.468 /\
  (-32 <= Loop.steer_x mo' /\ Loop.steer_x mo' <= 32) /\
  (-19 <= Loop.steer_y mo' /\ Loop.steer_y mo' <= 19).
Proof.
  split; [lia |].
  split; [discriminate |]. split; [discriminate |].
  split; [discriminate |]. split; [discriminate |].
  destruct (controls_steering_bounded Scenario.modes0 Sample.right_boost 16
              {| Loop.steer_x := 31.5; Loop.steer_y := -18.9;
                 Loop.rotation := 0; Loop.spiral := 0 |}
              ltac:(lia) ltac:(discriminate) ltac:(discriminate)
              ltac:(discriminate) ltac:(discriminate)) as (HX & HY & _).
  cbv zeta. split; [reflexivity |]. split; [exact HX | exact HY].
Defined.

(** The spiral amount stays within [[0, 0.5]] in every frame, so the inward
    scaling factor of the stars, [1 - (spiral * 0.6) * 0.0006], stays within
    [[0.99982, 1]]; with the spiral off the rotation and the spiral shrink to
    0.98 and 0.96 of their values; the rotation never turns negative when
    the frame time is not negative. *)
Theorem controls_spiral_bounded
    (m : Main.Modes) (keys : Loop.Keys) (ticks : Z) (mo : Loop.Motion) :
  0 <= Loop.spiral mo -> Loop.spiral mo <= 0.5 ->
  let mo' := fst (Loop.controls m keys ticks mo) in
  let v := snd (Loop.controls m keys ticks mo) in
  (0 <= Loop.spiral mo' /\ Loop.spiral mo' <= 0.5) /\
  (0.99982 <= 1 - (Main.spiral v * 0.6) * 0.0006 /\
   1 - (Main.spiral v * 0.6) * 0.0006 <= 1) /\
  Main.spiral v = Loop.spiral mo' /\ Main.rotation v = Loop.rotation mo' /\
  (Main.spiral_enabled m = false ->
     Loop.rotation mo' = Loop.rotation mo * 0.98 /\
     Loop.spiral mo' = Loop.spiral mo * 0.96) /\
  (Main.spiral_enabled m = true -> Loop.spiral mo' = 0.5) /\
  ((0 <= ticks)%Z -> 0 <= Loop.rotation mo -> 0 <= Loop.rotation mo').
Proof.
  intros S0 S1. unfold Loop.controls, Loop.sway.
  destruct (Main.audio_influence _ _) as [level mult].
  destruct (Main.spiral_enabled m);
    cbn [fst snd Loop.spiral Loop.rotation Main.spiral Main.rotation].
  - split; [split; discriminate |]. split; [split; discriminate |].
    split; [reflexivity |]. split; [reflexivity |].
    split; [discriminate |]. split; [reflexivity |].
    intros Ht R0.
    pose proof (dt_nonneg ticks Ht) as D0.
    lra.
  - split; [split; lra |]. split; [split; lra |].
    split; [reflexivity |]. split; [reflexivity |].
    split; [intros _; split; reflexivity |]. split; [discriminate |].
    intros _ R0. lra.
Qed.

Lemma controls_spiral_bounded_witness :
  0 <= Loop.spiral Sample.still /\ Loop.spiral Sample.still <= 0.5 /\
  let mo' := fst (Loop.controls Sample.modes_audio Sample.idle 16 Sample.still) in
  0 <= Loop.spiral mo' /\ Loop.spiral mo' <= 0.5.
Proof.
  split; [discriminate |]. split; [discriminate |].
  destruct (controls_spiral_bounded Sample.modes_audio Sample.idle 16
              Sample.still ltac:(discriminate) ltac:(discriminate))
    as ([H0 H1] & _).
  cbv zeta. split; [exact H0 | exact H1].
Defined.

Section LatestBlock.
Variable np_rms : list Q -> Q.
Variable np_fft_mean : list Q -> option Q.

(** The level holds only the newest block: after any blocks followed by a
    block [b] the level is what [b] alone gives, the FFT mean times ten
    clamped to [[0, 1.5]], or the RMS times ten clamped when the FFT raised;
    earlier blocks leave no trace and no field but the level changes.  A mean
    of 0.15 or more saturates at 1.5. *)
Theorem callbacks_keep_latest_block
    (a : AudioAnalyzer.t) (blocks : list (list Q)) (b : list Q) :
  let a' := AudioAnalyzer.callbacks np_rms np_fft_mean a (blocks ++ [b]) in
  AudioAnalyzer.get_level a' =
    match np_fft_mean b with
    | Some val => clamp (val * 10.0) 0.0 1.5
    | None => clamp (np_rms b * 10.0) 0.0 1.5
    end /\
  AudioAnalyzer.running a' = AudioAnalyzer.running a /\
  AudioAnalyzer.block a' = AudioAnalyzer.block a /\
  AudioAnalyzer.sr a' = AudioAnalyzer.sr a /\
  (forall val, np_fft_mean b = Some val -> 0.15 <= val ->
               AudioAnalyzer.get_level a' == 1.5).
Proof.
  cbv zeta. unfold AudioAnalyzer.callbacks. rewrite fold_left_app.
  cbn [fold_left].
  set (a0 := fold_left (AudioAnalyzer._callback np_rms np_fft_mean) blocks a).
  assert (K : AudioAnalyzer.running a0 = AudioAnalyzer.running a /\
              AudioAnalyzer.block a0 = AudioAnalyzer.block a /\
              AudioAnalyzer.sr a0 = AudioAnalyzer.sr a).
  { subst a0. revert a. induction blocks as [| x xs IH]; intros a.
    - now repeat split.
    - cbn [fold_left]. destruct (IH (AudioAnalyzer._callback np_rms np_fft_mean a x))
        as (I1 & I2 & I3).
      rewrite I1, I2, I3. now repeat split. }
  destruct K as (K1 & K2 & K3).
  split; [reflexivity |]. split; [exact K1 |]. split; [exact K2 |].
  split; [exact K3 |].
  intros val E Hval.
  unfold AudioAnalyzer.get_level, AudioAnalyzer._callback.
  cbn [AudioAnalyzer.latest_level]. rewrite E.
  unfold clamp, Py.max, Py.min.
  destruct (Qltb_spec (val * 10.0) 1.5); [lra |].
  destruct (Qltb_spec 0.0 1.5); [reflexivity | lra].
Qed.
End LatestBlock.

Lemma callbacks_keep_latest_block_witness :
  let rms := fun _ : list Q => 0.01 in
  let fft := fun data : list Q =>
               match data with [] => None | x :: _ => Some x end in
  let a := fst (AudioAnalyzer.init AudioAnalyzer.started) in
  fft [0.2] = Some 0.2 /\ 0.15 <= 0.2 /\
  AudioAnalyzer.get_level
    (AudioAnalyzer.callbacks rms fft a ([[0.01]; []] ++ [[0.2]])) == 1.5.
Proof.
  cbv zeta. split; [reflexivity |]. split; [discriminate |].
  destruct (callbacks_keep_latest_block (fun _ : list Q => 0.01)
              (fun data : list Q =>
                 match data with [] => None | x :: _ => Some x end)
              (fst (AudioAnalyzer.init AudioAnalyzer.started))
              [[0.01]; []] [0.2]) as (_ & _ & _ & _ & Hsat).
  apply (Hsat 0.2); [reflexivity | discriminate].
Defined.

(** ** How far a shooting star gets *)

(** A shooting star advances into the screen by 6 to 12 pixels in every
    frame: after [n] updates one spawned at the top is between [6 n] and
    [12 n] pixels below its start at [y = -20], one spawned on the left as far
    to the right of [x = -20], one spawned on the right as far to the left of
    [x = width + 20]. *)
Theorem shooting_star_advances
    (src : Random.Source) (width height : Q) (k n : nat) :
  Random.sound src ->
  let s := fst (ShootingStar.init src width height k) in
  let steps := inject_Z (Z.of_nat n) in
  match spawn_edge src k with
  | ShootingStar.top =>
      -20 + 6 * steps <= ShootingStar.y (updates n s) /\
      ShootingStar.y (updates n s) <= -20 + 12 * steps
  | ShootingStar.left =>
      -20 + 6 * steps <= ShootingStar.x (updates n s) /\
      ShootingStar.x (updates n s) <= -20 + 12 * steps
  | ShootingStar.right =>
      width + 20 - 12 * steps <= ShootingStar.x (updates n s) /\
      ShootingStar.x (updates n s) <= width + 20 - 6 * steps
  end.
Proof.
  intros Hsrc s steps.
  assert (N : 0 <= steps).
  { subst steps. change 0 with (inject_Z 0). rewrite <- Zle_Qle. lia. }
  destruct (updates_line n s) as (Hx & Hy & _).
  fold steps in Hx, Hy.
  pose proof (init_fields src width height k) as F. fold s in F.
  destruct F as (Fedge & _).
  destruct (spawn_edge src k); destruct Fedge as (Ex & Ey & Evx & Evy).
  - destruct (uniform_range src 6 12 (3 + k)%nat Hsrc ltac:(discriminate)) as [V0 V1].
    rewrite Hy, Ey, Evy.
    set (vy := 6 + (12 - 6) * Random.unit_draw src (3 + k)%nat) in *. split; nra.
  - destruct (uniform_range src 6 12 (2 + k)%nat Hsrc ltac:(discriminate)) as [V0 V1].
    rewrite Hx, Ex, Evx.
    set (vx := 6 + (12 - 6) * Random.unit_draw src (2 + k)%nat) in *. split; nra.
  - destruct (uniform_range src (-12) (-6) (2 + k)%nat Hsrc ltac:(discriminate))
      as [V0 V1].
    rewrite Hx, Ex, Evx.
    set (vx := -12 + (-6 - -12) * Random.unit_draw src (2 + k)%nat) in *. split; nra.
Qed.

Lemma shooting_star_advances_witness :
  Random.sound Scenario.zeros /\
  let s := fst (ShootingStar.init Scenario.zeros WIDTH HEIGHT 0%nat) in
  spawn_edge Scenario.zeros 0%nat = ShootingStar.left /\
  -20 + 6 * inject_Z (Z.of_nat 80) <= ShootingStar.x (updates 80 s).
Proof.
  split; [exact zeros_sound |]. cbv zeta. split; [reflexivity |].
  pose proof (shooting_star_advances Scenario.zeros WIDTH HEIGHT 0%nat 80%nat
                zeros_sound) as H.
  cbv zeta in H.
  change (spawn_edge Scenario.zeros 0%nat) with ShootingStar.left in H.
  exact (proj1 H).
Defined.

(** ** More concrete runs *)

Lemma star_step_keeps_depth_range_witness :
  Random.sound Scenario.half /\
  Star.w Scenario.far_star = WIDTH /\
  0.9 < Star.z Scenario.far_star /\ Star.z Scenario.far_star <= WIDTH /\
  (exists star' cmds k',
     Main.star_step Scenario.half Scenario.flat_cos Scenario.flat_sin
       (Scenario.view 0) Scenario.far_star 0%nat = (Some (star', cmds), k') /\
     Star.z Scenario.far_star == 900 /\ Star.z star' == 898.88 /\ k' = 0%nat) /\
  (exists star' cmds k',
     Main.star_step Scenario.half Scenario.flat_cos Scenario.flat_sin
       (Scenario.view 0) Scenario.near_star 0%nat = (Some (star', cmds), k') /\
     Star.z Scenario.near_star == 1 /\ Star.z star' == 800 /\
     List.length (Star.prev star') = 1%nat /\ k' = 6%nat).
Proof.
  split; [exact half_sound |]. split; [reflexivity |].
  split; [reflexivity |]. split; [discriminate |].
  split.
  - destruct (star_step_keeps_depth_range Scenario.half Scenario.flat_cos
                Scenario.flat_sin half_sound (Scenario.view 0) Scenario.far_star
                0%nat eq_refl eq_refl ltac:(discriminate) ltac:(discriminate)
                ltac:(discriminate) ltac:(discriminate))
      as (star' & cmds & k' & E & _ & _ & _ & _ & _ & _ & D).
    exists star', cmds, k'. split; [exact E |]. split; [reflexivity |].
    destruct D as [(_ & Ez & Ek) | (Hn & _)].
    + split; [rewrite Ez; reflexivity | exact Ek].
    + exfalso. revert Hn. vm_compute. intros Hn. apply Hn. reflexivity.
  - destruct (star_step_keeps_depth_range Scenario.half Scenario.flat_cos
                Scenario.flat_sin half_sound (Scenario.view 0) Scenario.near_star
                0%nat eq_refl eq_refl ltac:(discriminate) ltac:(discriminate)
                ltac:(discriminate) ltac:(discriminate))
      as (star' & cmds & k' & E & _ & _ & _ & _ & _ & _ & D).
    exists star', cmds, k'. split; [exact E |]. split; [reflexivity |].
    destruct D as [(Hf & _) | (_ & _ & Es & Ek)].
    + exfalso. revert Hf. vm_compute. discriminate.
    + rewrite Es. split; [reflexivity |]. split; [reflexivity | exact Ek].
Defined.

Lemma far_star_in_range : Forall star_in_range [Scenario.far_star].
Proof.
  constructor; [| constructor].
  split; [reflexivity |]. split; [reflexivity | discriminate].
Qed.

Lemma frame_keeps_stars_in_range_witness :
  Random.sound Scenario.half /\
  Forall star_in_range [Scenario.far_star] /\
  exists mo' stars' sky' cmds k',
    Loop.frame Scenario.half Scenario.flat_cos Scenario.flat_sin
      Sample.modes_audio Sample.right_boost 16 Sample.still
      [Scenario.far_star] Scenario.sky1 0%nat =
      (Some (mo', stars', sky', cmds), k') /\
    List.length stars' = 1%nat /\ Forall star_in_range stars'.
Proof.
  split; [exact half_sound |]. split; [exact far_star_in_range |].
  destruct (frame_keeps_stars_in_range Scenario.half Scenario.flat_cos
              Scenario.flat_sin half_sound Sample.modes_audio
              Sample.right_boost 16 Sample.still [Scenario.far_star]
              Scenario.sky1 0%nat far_star_in_range)
    as (mo' & stars' & sky' & cmds & k' & E & L & F).
  exists mo', stars', sky', cmds, k'.
  split; [exact E |]. split; [exact L | exact F].
Defined.

Lemma make_stars_in_range_witness :
  Random.sound Scenario.half /\
  exists stars,
    Loop.make_stars Scenario.half NUM_STARS 0%nat = (stars, 3500%nat) /\
    List.length stars = 700%nat /\ Forall star_in_range stars.
Proof.
  split; [exact half_sound |].
  destruct (make_stars_in_range Scenario.half half_sound NUM_STARS 0%nat)
    as (stars & E & L & F & _).
  exists stars. split; [exact E |]. split; [exact L | exact F].
Defined.

Lemma sky1_alive : sky_alive Scenario.sky1.
Proof.
  split; [exact sky1_ok |].
  intros r Hr. vm_compute in Hr. destruct Hr as [<- | []].
  eexists. split; [vm_compute; reflexivity | reflexivity].
Qed.

Lemma shooting_frame_keeps_collection_alive_witness :
  Random.sound Scenario.zeros /\ sky_alive Scenario.sky1 /\
  let r := Main.shooting_frame Scenario.zeros Scenario.sky1 7%nat in
  sky_alive (fst (fst r)) /\
  List.length (snd (fst r)) = (2 * List.length (Main.shooting (fst (fst r))))%nat.
Proof.
  split; [exact zeros_sound |]. split; [exact sky1_alive |].
  destruct (shooting_frame_keeps_collection_alive Scenario.zeros zeros_sound
              Scenario.sky1 7%nat sky1_alive) as (A & _ & L & _).
  cbv zeta. split; [exact A | exact L].
Defined.

Lemma audio_key_without_audio_witness :
  Main.audio_analyzer Scenario.modes0 = None /\
  Main.audio_enabled
    (Loop.handle_events false
       [Main.KEYDOWN Main.K_a; Main.KEYDOWN Main.K_s; Main.KEYDOWN Main.K_a]
       Scenario.modes0) = false /\
  Main.stdout
    (Loop.handle_events false
       [Main.KEYDOWN Main.K_a; Main.KEYDOWN Main.K_s; Main.KEYDOWN Main.K_a]
       Scenario.modes0) =
    ["Audio not available (requires sounddevice + numpy).";
     "Audio not available (requires sounddevice + numpy)."]%string.
Proof.
  split; [reflexivity |].
  destruct (audio_key_without_audio false
              [Main.KEYDOWN Main.K_a; Main.KEYDOWN Main.K_s; Main.KEYDOWN Main.K_a]
              Scenario.modes0 (or_intror eq_refl)) as [Ha Ho].
  split; [exact Ha | exact Ho].
Defined.

Lemma audio_enabled_needs_analyzer_witness :
  Main.audio_enabled
    (Loop.handle_events true Sample.quit_then_keys
       (Main.setup true (Main.returns AudioAnalyzer.started) [])) = true /\
  Main.audio_analyzer
    (Loop.handle_events true Sample.quit_then_keys
       (Main.setup true (Main.returns AudioAnalyzer.started) [])) <> None.
Proof.
  split; [reflexivity |].
  destruct (audio_enabled_needs_analyzer true
              (Main.returns AudioAnalyzer.started) [] Sample.quit_then_keys)
    as [_ H].
  apply H. reflexivity.
Defined.

(** ** A star without width, and the surfaces of a frame *)

(** The division of the projection can fail: on a star built for a screen of
    width 0 the respawn draws [z] from [[0, 0]], and the update that respawns
    it ends in a [ZeroDivisionError], whatever the generator returns. *)
Theorem update_fails_without_width
    (src : Random.Source) (cos sin : Q -> Q) (s : Star.t)
    (speed offset_x offset_y rotation spiral : Q) (k : nat) :
  Star.w s == 0 -> Star.z s - speed <= 0.9 ->
  fst (Star.update src cos sin s speed offset_x offset_y rotation spiral k) = None.
Proof.
  intros Hw Hz. unfold Star.update, Random.bind.
  destruct (swirl_keeps cos sin s rotation spiral) as (Ez & Ew & Eh & _).
  rewrite approach_near by (rewrite Ez; exact Hz).
  cbn [Random.ret fst]. unfold Star.project, Py.div.
  cbn [respawned Star.z Star.x Star.y Star.w Star.set_z].
  rewrite Ew.
  assert (Z : Star.w s * 0.6 +
              (Star.w s - Star.w s * 0.6) * Random.unit_draw src (5 + k)%nat == 0)
    by (rewrite Hw; ring).
  apply Qeq_bool_iff in Z. now rewrite Z.
Qed.

Lemma update_fails_without_width_witness :
  let flat := {| Star.w := 0; Star.h := HEIGHT; Star.x := 0; Star.y := 0;
                 Star.z := 0.5; Star.prev := []; Star.base_size := 1;
                 Star.brightness := 1; Star.is_shooting := false |} in
  Star.w flat == 0 /\ Star.z flat - 0.8 <= 0.9 /\
  fst (Star.update Scenario.half Scenario.flat_cos Scenario.flat_sin flat
         0.8 0 0 0 0 0%nat) = None.
Proof.
  cbv zeta. split; [reflexivity |]. split; [discriminate |].
  apply update_fails_without_width; [reflexivity | discriminate].
Defined.

Lemma star_draws_target (v : Main.View) (star : Star.t) (p : Point3) :
  Forall (fun c => target c =
                   if Main.trails v then Draw.trail_surf else Draw.screen)
         (Main.star_draws v star p).
Proof.
  destruct p as [[sx sy] sz]. unfold Main.star_draws.
  destruct (Main.on_screen sx sy); [| constructor]. cbv zeta.
  destruct (Main.trails v).
  - constructor; [reflexivity |].
    destruct (1 <? List.length (Star.prev star))%nat; [| constructor].
    apply Forall_forall. intros c Hc. apply in_map_iff in Hc.
    destruct Hc as (i & <- & _).
    now destruct (nth i (Star.prev star) (0, 0, 0)) as [[px py] pz].
  - constructor; [reflexivity | constructor].
Qed.

Lemma shooting_loop_targets (snapshot : list nat) :
  forall sky,
    Forall (fun c => target c = Draw.screen)
      (snd (Main.shooting_loop snapshot sky)).
Proof.
  induction snapshot as [| r0 rest IH]; intros sky; [constructor |].
  cbn [Main.shooting_loop].
  destruct (Main.heap sky r0) as [s0 |]; [| apply IH].
  destruct (ShootingStar.update s0) as [s0' alive].
  destruct alive; cbn [negb]; [| apply IH].
  specialize (IH {| Main.heap := Main.store r0 s0' (Main.heap sky);
                    Main.shooting := Main.shooting sky;
                    Main.next_ref := Main.next_ref sky |}).
  destruct (Main.shooting_loop rest _) as [sky' cmds]. cbn [snd] in *.
  apply Forall_app. split; [repeat constructor | exact IH].
Qed.

Section Surfaces.
Variable src : Random.Source.
Variables cos sin : Q -> Q.

Lemma stars_loop_target (v : Main.View) (stars : list Star.t) :
  forall k stars' cmds k',
    Main.stars_loop src cos sin v stars k = (Some (stars', cmds), k') ->
    Forall (fun c => target c =
                     if Main.trails v then Draw.trail_surf else Draw.screen)
           cmds.
Proof.
  induction stars as [| star rest IH]; intros k stars' cmds k' E.
  - cbn in E. injection E as _ <- _. constructor.
  - cbn [Main.stars_loop] in E. unfold Random.bind at 1 in E.
    destruct (Main.star_step src cos sin v star k) as [[[star1 c1] |] k1] eqn:E1;
      [| discriminate E].
    unfold Random.bind at 1 in E.
    destruct (Main.stars_loop src cos sin v rest k1) as [[[rest1 c2] |] k2] eqn:E2;
      [| discriminate E].
    cbn [Random.ret] in E. injection E as _ <- _.
    apply Forall_app. split; [| now apply (IH k1 rest1 c2 k2)].
    revert E1. unfold Main.star_step, Random.bind.
    destruct (if Main.audio v then _ else _) as [speed k0].
    destruct (Star.update _ _ _ _ _ _ _ _ _ _) as [[[s' p] |] k3];
      cbn [Random.ret]; [| discriminate].
    intros E1. injection E1 as _ <- _. apply star_draws_target.
Qed.

(** The draw calls of a frame come in two runs: first those of the stars,
    all on the trail surface when trails are on and all on the screen when
    they are off, then those of the shooting stars, always on the screen.
    With trails on, only shooting stars are drawn directly on the screen. *)
Theorem render_surfaces
    (v : Main.View) (stars : list Star.t) (sky : Main.Sky) (k : nat)
    (stars' : list Star.t) (sky' : Main.Sky) (cmds : list Draw.Cmd) (k' : nat) :
  Main.render src cos sin v stars sky k = (Some (stars', sky', cmds), k') ->
  exists star_cmds streak_cmds k1,
    cmds = star_cmds ++ streak_cmds /\
    Main.stars_loop src cos sin v stars k = (Some (stars', star_cmds), k1) /\
    Main.shooting_frame src sky k1 = (sky', streak_cmds, k') /\
    Forall (fun c => target c =
                     if Main.trails v then Draw.trail_surf else Draw.screen)
           star_cmds /\
    Forall (fun c => target c = Draw.screen) streak_cmds.
Proof.
  unfold Main.render. unfold Random.bind at 1.
  destruct (Main.stars_loop src cos sin v stars k) as [[[st c1] |] k1] eqn:E1;
    [| discriminate].
  unfold Random.bind.
  destruct (Main.shooting_frame src sky k1) as [[sk c2] k2] eqn:E2.
  cbn [Random.ret]. intros E. injection E as <- <- <- <-.
  exists c1, c2, k1. split; [reflexivity |]. split; [reflexivity |].
  split; [exact E2 |].
  split; [now apply (stars_loop_target v stars k st c1 k1) |].
  revert E2. unfold Main.shooting_frame, Random.bind.
  destruct (Main.spawn src sky k1) as [sky1 k3]. cbn [Random.ret].
  intros E2. injection E2 as E2 _.
  assert (C : c2 = snd (Main.shooting_loop (Main.shooting sky1) sky1))
    by now rewrite E2.
  rewrite C. apply shooting_loop_targets.
Qed.
End Surfaces.

Lemma render_surfaces_witness :
  exists star_cmds streak_cmds,
    Scenario.draws2 = star_cmds ++ streak_cmds /\
    Forall (fun c => target c = Draw.trail_surf) star_cmds /\
    Forall (fun c => target c = Draw.screen) streak_cmds.
Proof.
  unfold Scenario.draws2.
  destruct Scenario.frame2 as [[[[st sk] cm] |] k'] eqn:E.
  - cbn [fst].
    destruct (render_surfaces Scenario.half Scenario.flat_cos Scenario.flat_sin
                (Scenario.view (Main.steer 1 0 0.016 0)) Scenario.stars1
                Scenario.empty_sky (snd Scenario.frame1) st sk cm k' E)
      as (a & b & k1 & Ecm & _ & _ & Fa & Fb).
    exists a, b. split; [exact Ecm |]. split; [exact Fa | exact Fb].
  - vm_compute in E. discriminate E.
Defined.

(** ** The gradient on every float *)

Lemma color_gradient_float_finite (q : Q) :
  color_gradient_float (finite q) = Some (color_gradient q).
Proof.
  unfold color_gradient_float, color_gradient, clamped.
  cbn [float_lt float_gt].
  destruct (Py.Qltb q 0); cbn [float_lt float_gt];
    destruct (Py.Qltb 1 _); cbn [float_lt float_gt branch_at];
    repeat match goal with
           | |- context [Py.Qltb ?a ?b] => destruct (Py.Qltb a b)
           end; reflexivity.
Qed.

(** C10, as the code has it: for every float [t] that is not NaN, also an
    infinity or a number far outside [[0, 1]], [color_gradient] returns a
    triple whose three components are integers in [[0, 255]]; on a finite
    number [q] the triple is [color_gradient q]. *)
Theorem color_gradient_valid_unless_nan (t : Float) :
  t <> nan ->
  exists c,
    color_gradient_float t = Some c /\
    (0 <= red c <= 255 /\ 0 <= green c <= 255 /\ 0 <= blue c <= 255)%Z /\
    (forall q, t = finite q -> c = color_gradient q).
Proof.
  intros Ht. destruct t as [q | | |].
  - exists (color_gradient q). split; [apply color_gradient_float_finite |].
    split; [apply gradient_channels |].
    intros q' E. now injection E as <-.
  - exists (255, 100, 40)%Z. split; [reflexivity |].
    split; [cbn; lia | discriminate].
  - exists (80, 120, 200)%Z. split; [reflexivity |].
    split; [cbn; lia | discriminate].
  - contradiction.
Qed.

Lemma color_gradient_valid_unless_nan_witness :
  finite 1000000 <> nan /\ inf <> nan /\
  color_gradient_float (finite 1000000) = Some (255, 100, 40)%Z /\
  exists c,
    color_gradient_float inf = Some c /\
    (0 <= red c <= 255 /\ 0 <= green c <= 255 /\ 0 <= blue c <= 255)%Z.
Proof.
  split; [discriminate |]. split; [discriminate |].
  destruct (color_gradient_valid_unless_nan (finite 1000000) ltac:(discriminate))
    as (c & E & _ & Hq).
  split; [rewrite E, (Hq 1000000 eq_refl); reflexivity |].
  destruct (color_gradient_valid_unless_nan inf ltac:(discriminate))
    as (c' & E' & R' & _).
  exists c'. split; [exact E' | exact R'].
Defined.

(** C10 as stated fails at NaN: every test of [color_gradient] is false
    there, the last branch computes NaN and [int] of it raises
    [ValueError], so no triple is returned. *)
Lemma color_gradient_raises_at_nan :
  color_gradient_float nan = None /\
  ~ (exists c, color_gradient_float nan = Some c /\
               (0 <= red c <= 255 /\ 0 <= green c <= 255 /\
                0 <= blue c <= 255)%Z).
Proof.
  split; [reflexivity |]. intros (c & E & _). discriminate E.
Qed.
